(** * deepseek-r1-edge: the SSE-to-JSON handler [onRequest]

    A shallow embedding of [functions/v1/chat/completions/index.ts]: the
    edge function that forwards a chat request to the upstream endpoint,
    reads the upstream Server-Sent-Events body chunk by chunk, concatenates
    the [choices[0].delta.content] fragments and answers with one OpenAI
    style [chat.completion] JSON document.  [_functions/chat.ts] holds the
    same handler without the test of the method, [onRequestPost].

    The handler's own control flow is [process_line], [read_loop] and
    [onRequest] below.  The platform functions it calls are modelled after
    their standards, each in a module named after the JavaScript object:
    - [Str]         String.prototype: split, startsWith, slice, trim
                    (ECMA-262), on strings of UTF-16 code units;
    - [TextDecoder] the UTF-8 decoder of the WHATWG Encoding standard,
                    called once per chunk without the stream option;
    - [Double]      Number: binary64 values (Stdlib's [spec_float]) and
                    Number::toString;
    - [JSON]        JSON.parse and JSON.stringify;
    - [Headers]     Headers.prototype.get of the Fetch standard.

    [app/new/page.tsx], the chat page that posts the conversation and
    reads the answer as a stream of the same records, is embedded in the
    module [Page]: its state, [handleSubmit] with its read loop,
    [handleStop] and the model selector. *)

From Stdlib Require Import ZArith NArith List String Ascii Bool Lia.
From Stdlib Require Import DecimalString.
From Stdlib Require Import Floats.SpecFloat.
Import ListNotations.

Local Open Scope list_scope.

(** ** JavaScript strings *)

(** A JavaScript string is a sequence of UTF-16 code units. *)
Definition code_unit := N.
Definition jsstring := list code_unit.

(** A chunk delivered by [reader.read()] is a [Uint8Array]. *)
Definition bytes := list Byte.byte.

(** [lit "abc"] is the JavaScript string literal ['abc'] (ASCII only). *)
Definition lit (s : string) : jsstring :=
  map Byte.to_N (list_byte_of_string s).
Arguments lit s%_string.

(** [quoted] is [lit] with every apostrophe read as a double quote, so
    that JSON text can be written down in examples:
    [quoted "{'a':1}"] is the JavaScript string [{"a":1}]. *)
Definition quoted (s : string) : jsstring :=
  map (fun c => if N.eqb c 39 then 34%N else c) (lit s).
Arguments quoted s%_string.

(** The bytes of an ASCII text, for writing down chunks in examples. *)
Definition ascii_bytes (s : string) : bytes := list_byte_of_string s.
Arguments ascii_bytes s%_string.

Definition quoted_bytes (s : string) : bytes :=
  map (fun b => if N.eqb (Byte.to_N b) 39 then Byte.x22 else b)
      (list_byte_of_string s).
Arguments quoted_bytes s%_string.

Fixpoint jsstring_eqb (a b : jsstring) : bool :=
  match a, b with
  | [], [] => true
  | x :: a', y :: b' => N.eqb x y && jsstring_eqb a' b'
  | _, _ => false
  end.

Module Str.

(** [s.startsWith(prefix)] *)
Fixpoint startsWith (prefix s : jsstring) : bool :=
  match prefix, s with
  | [], _ => true
  | p :: prefix', c :: s' => N.eqb p c && startsWith prefix' s'
  | _ :: _, [] => false
  end.

(** [s.slice(start)] for a start index [0 <= start]: the code units from
    [start] on, the empty string when [start] is past the end. *)
Definition slice (start : nat) (s : jsstring) : jsstring := skipn start s.

(** WhiteSpace and LineTerminator of ECMA-262 (11.2, 11.3): what
    [String.prototype.trim] strips.  All of them are single code units. *)
Definition is_whitespace (c : code_unit) : bool :=
  (N.eqb c 0x09 || N.eqb c 0x0A || N.eqb c 0x0B || N.eqb c 0x0C ||
   N.eqb c 0x0D || N.eqb c 0x20 || N.eqb c 0xA0 || N.eqb c 0x1680 ||
   (N.leb 0x2000 c && N.leb c 0x200A) ||
   N.eqb c 0x2028 || N.eqb c 0x2029 || N.eqb c 0x202F || N.eqb c 0x205F ||
   N.eqb c 0x3000 || N.eqb c 0xFEFF)%bool.

Fixpoint trimStart (s : jsstring) : jsstring :=
  match s with
  | c :: s' => if is_whitespace c then trimStart s' else s
  | [] => []
  end.

Definition trimEnd (s : jsstring) : jsstring := rev (trimStart (rev s)).

(** [s.trim()] *)
Definition trim (s : jsstring) : jsstring := trimEnd (trimStart s).

(** [s.split(sep)] for a separator of one code unit: the pieces between
    the separators, in order; always at least one piece. *)
Fixpoint split (sep : code_unit) (s : jsstring) : list jsstring :=
  match s with
  | [] => [[]]
  | c :: s' =>
      if N.eqb c sep then [] :: split sep s'
      else match split sep s' with
           | piece :: pieces => (c :: piece) :: pieces
           | [] => [[c]]
           end
  end.

(** [pieces.join(sep)], the inverse of [split] used to state theorems
    about a chunk through its lines. *)
Fixpoint join (sep : jsstring) (pieces : list jsstring) : jsstring :=
  match pieces with
  | [] => []
  | [p] => p
  | p :: rest => p ++ sep ++ join sep rest
  end.

End Str.

(** The line terminator the handler splits on: ['\n']. *)
Definition LF : code_unit := 10%N.

(** ** TextDecoder *)

Module TextDecoder.

(** The UTF-8 decoder of the WHATWG Encoding standard (section 9.1.1),
    with the default error mode "replacement": every ill-formed sequence
    becomes U+FFFD.  The state is the code point under construction, the
    number of continuation bytes still needed and the bounds for the next
    continuation byte. *)
Record state := {
  code_point : N;
  bytes_needed : nat;
  lower_boundary : N;
  upper_boundary : N
}.

Definition REPLACEMENT : N := 0xFFFD.

(** A byte read while no sequence is open: a code point, the opening of
    a multi-byte sequence, or an error. *)
Inductive lead := Emit (cp : N) | Open (st : state) | Invalid.

Definition decode_lead (b : N) : lead :=
  if N.leb b 0x7F then Emit b
  else if N.leb 0xC2 b && N.leb b 0xDF then
    Open {| code_point := N.land b 0x1F; bytes_needed := 1;
            lower_boundary := 0x80; upper_boundary := 0xBF |}
  else if N.leb 0xE0 b && N.leb b 0xEF then
    Open {| code_point := N.land b 0xF; bytes_needed := 2;
            lower_boundary := if N.eqb b 0xE0 then 0xA0 else 0x80;
            upper_boundary := if N.eqb b 0xED then 0x9F else 0xBF |}
  else if N.leb 0xF0 b && N.leb b 0xF4 then
    Open {| code_point := N.land b 0x7; bytes_needed := 3;
            lower_boundary := if N.eqb b 0xF0 then 0x90 else 0x80;
            upper_boundary := if N.eqb b 0xF4 then 0x8F else 0xBF |}
  else Invalid.

(** [utf8 st bs]: the code points of [bs], read from state [st]
    ([None]: no sequence is open).  A byte that cannot continue the open
    sequence ends it with U+FFFD and is read again as a lead byte; the
    end of the input inside a sequence gives one U+FFFD. *)
Fixpoint utf8 (st : option state) (bs : list N) : list N :=
  match bs with
  | [] => match st with None => [] | Some _ => [REPLACEMENT] end
  | b :: rest =>
      let from_lead :=
        match decode_lead b with
        | Emit cp => cp :: utf8 None rest
        | Open st' => utf8 (Some st') rest
        | Invalid => REPLACEMENT :: utf8 None rest
        end in
      match st with
      | None => from_lead
      | Some s =>
          if N.leb (lower_boundary s) b && N.leb b (upper_boundary s) then
            let cp := N.lor (N.shiftl (code_point s) 6) (N.land b 0x3F) in
            match bytes_needed s with
            | S (S n) =>
                utf8 (Some {| code_point := cp; bytes_needed := S n;
                              lower_boundary := 0x80;
                              upper_boundary := 0xBF |}) rest
            | _ => cp :: utf8 None rest
            end
          else REPLACEMENT :: from_lead
      end
  end.

(** The decoder was made with [new TextDecoder()]: ignoreBOM is false, so
    a byte order mark at the start of the decoded input is dropped. *)
Definition strip_bom (cps : list N) : list N :=
  match cps with
  | cp :: rest => if N.eqb cp 0xFEFF then rest else cps
  | [] => []
  end.

(** Code points to UTF-16 code units. *)
Definition utf16 (cp : N) : jsstring :=
  if N.ltb cp 0x10000 then [cp]
  else [(0xD800 + N.shiftr (cp - 0x10000) 10)%N;
        (0xDC00 + N.land (cp - 0x10000) 0x3FF)%N].

(** [decoder.decode(value)], called without [{stream: true}]: every call
    decodes its chunk from a fresh decoder state and flushes at the end
    of the chunk; nothing is carried over to the next call. *)
Definition decode (value : bytes) : jsstring :=
  flat_map utf16 (strip_bom (utf8 None (map Byte.to_N value))).

End TextDecoder.

(** ** Numbers *)

Module Double.

(** A JavaScript Number is an IEEE 754 binary64 value: Stdlib's
    [spec_float] at precision 53.  Every value made here is in canonical
    form, so two equal Numbers have the same mantissa and exponent. *)
Definition prec : Z := 53.
Definition emax : Z := 1024.

(** The Number nearest to [a / b] (round to nearest, ties to even), for
    [0 <= a] and [0 < b], with the sign [neg]. *)
Definition of_ratio (neg : bool) (a b : Z) : spec_float :=
  match a, b with
  | Zpos pa, Zpos pb =>
      SFdiv prec emax (S754_finite neg pa 0) (S754_finite false pb 0)
  | _, _ => S754_zero neg
  end.

(** The Number for the decimal [m * 10^e], [0 <= m]. *)
Definition of_decimal (neg : bool) (m e : Z) : spec_float :=
  if (0 <=? e)%Z then of_ratio neg (m * 10 ^ e) 1
  else of_ratio neg m (10 ^ (- e)).

(** The Number for an integer, as [Date.now()] and the literal [0] are. *)
Definition of_Z (z : Z) : spec_float := binary_normalize prec emax z 0 false.

Definition is_zero_or_nan (x : spec_float) : bool :=
  match x with
  | S754_zero _ | S754_nan => true
  | _ => false
  end.

Definition is_finite (x : spec_float) : bool :=
  match x with
  | S754_zero _ | S754_finite _ _ _ => true
  | _ => false
  end.

(** *** Number::toString (ECMA-262 6.1.6.1.20, radix 10)

    For a positive finite [v = a / b] the standard takes integers
    [n], [k], [s] with [10^(k-1) <= s < 10^k], such that [s * 10^(n-k)]
    is a decimal that reads back as [v], with [k] as small as possible
    (and, as every engine does, the decimal nearest to [v] among those). *)

(** [a / b * 10^k] as a fraction. *)
Definition scale (a b k : Z) : Z * Z :=
  if (0 <=? k)%Z then (a * 10 ^ k, b)%Z else (a, b * 10 ^ (- k))%Z.

(** [a / b < 10^j] *)
Definition below_pow10 (a b j : Z) : bool :=
  let '(t, d) := scale a b (- j) in (t <? d)%Z.

(** The [n] with [10^(n-1) <= a / b < 10^n], searched from [n]. *)
Fixpoint magnitude_from (fuel : nat) (a b n : Z) : Z :=
  match fuel with
  | O => n
  | S fuel' =>
      if below_pow10 a b (n - 1) then magnitude_from fuel' a b (n - 1)
      else if below_pow10 a b n then n
      else magnitude_from fuel' a b (n + 1)
  end.

(** binary64 magnitudes lie between 10^-324 and 10^309. *)
Definition magnitude (a b : Z) : Z := magnitude_from 700 a b 0.

(** The decimal [s * 10^p] reads back as the Number [m * 2^e]. *)
Definition rounds_to (m : positive) (e : Z) (s p : Z) : bool :=
  match of_decimal false s p with
  | S754_finite false m' e' => Pos.eqb m m' && Z.eqb e e'
  | _ => false
  end.

(** The shortest digits: with [k] digits the only candidates are the two
    [k]-digit decimals around [v]; the first [k] for which one of them
    reads back as [v] is the answer ([k = 17] always does). *)
Fixpoint shortest (fuel : nat) (m : positive) (e a b n k : Z) : Z * Z :=
  let '(t, d) := scale a b (k - n) in
  let lo := (t / d)%Z in
  let r := (t mod d)%Z in
  let hi := (lo + 1)%Z in
  let up := if (hi =? 10 ^ k)%Z then (10 ^ (k - 1), n + 1)%Z else (hi, n) in
  let ok_lo := rounds_to m e lo (n - k) in
  let ok_hi := rounds_to m e hi (n - k) in
  let nearest :=
    if (2 * r <? d)%Z then (lo, n)
    else if (d <? 2 * r)%Z then up
    else if Z.even lo then (lo, n) else up in
  match ok_lo, ok_hi, fuel with
  | true, true, _ => nearest
  | true, false, _ => (lo, n)
  | false, true, _ => up
  | false, false, S fuel' => shortest fuel' m e a b n (k + 1)
  | false, false, O => (lo, n)
  end.

Definition decimal_digits (z : Z) : jsstring :=
  lit (NilZero.string_of_uint (N.to_uint (Z.to_N z))).

Definition zeros (count : Z) : jsstring := repeat 48%N (Z.to_nat count).

(** Steps 6 to 10 of Number::toString: where the decimal point or the
    exponent goes. *)
Definition format (s n : Z) : jsstring :=
  let ds := decimal_digits s in
  let k := Z.of_nat (List.length ds) in
  if (k <=? n)%Z && (n <=? 21)%Z then ds ++ zeros (n - k)
  else if (0 <? n)%Z && (n <=? 21)%Z then
    firstn (Z.to_nat n) ds ++ lit "." ++ skipn (Z.to_nat n) ds
  else if (-6 <? n)%Z && (n <=? 0)%Z then lit "0." ++ zeros (- n) ++ ds
  else
    let e := (n - 1)%Z in
    let exponent :=
      (if (0 <=? e)%Z then lit "+" else lit "-") ++ decimal_digits (Z.abs e) in
    match ds with
    | [] => []
    | [d] => [d] ++ lit "e" ++ exponent
    | d :: more => [d] ++ lit "." ++ more ++ lit "e" ++ exponent
    end.

Definition toString (x : spec_float) : jsstring :=
  match x with
  | S754_nan => lit "NaN"
  | S754_zero _ => lit "0"
  | S754_infinity neg => (if neg then lit "-" else []) ++ lit "Infinity"
  | S754_finite neg m e =>
      let a := if (0 <=? e)%Z then (Zpos m * 2 ^ e)%Z else Zpos m in
      let b := if (0 <=? e)%Z then 1%Z else (2 ^ (- e))%Z in
      let '(s, n) := shortest 17 m e a b (magnitude a b) 1 in
      (if neg then lit "-" else []) ++ format s n
  end.

End Double.

(** ** Values, errors and completions *)

(** The values [JSON.parse] returns and [JSON.stringify] takes.  An
    object is its list of own properties in creation order, with no key
    twice.  [undefined] is not one of them: an expression that may be
    [undefined] has type [option value], [None] being [undefined]. *)
#[warnings="-register-all"]
Inductive value :=
| JNull
| JBool (b : bool)
| JNumber (x : spec_float)
| JString (s : jsstring)
| JArray (elements : list value)
| JObject (members : list (jsstring * value)).

(** What can be thrown: by [JSON.parse] (SyntaxError), by reading a
    property of [null] or [undefined] and by converting an object with
    no usable [toString] (TypeError), and by the network: [fetch] and
    [reader.read()] reject with an error of the platform's. *)
Inductive js_error :=
| SyntaxError
| TypeError
| TransportError (reason : string).

Inductive completion (A : Type) :=
| Normal (a : A)
| Throw (e : js_error).
Arguments Normal {A} a.
Arguments Throw {A} e.

(** ** JSON *)

Module JSON.

(** *** JSON.parse: the grammar of ECMA-404 *)

Definition is_ws (c : code_unit) : bool :=
  N.eqb c 0x20 || N.eqb c 0x09 || N.eqb c 0x0A || N.eqb c 0x0D.

Fixpoint skip_ws (s : jsstring) : jsstring :=
  match s with
  | c :: s' => if is_ws c then skip_ws s' else s
  | [] => []
  end.

Definition is_digit (c : code_unit) : bool := N.leb 48 c && N.leb c 57.

Definition hex_value (c : code_unit) : option N :=
  if N.leb 48 c && N.leb c 57 then Some (c - 48)%N
  else if N.leb 65 c && N.leb c 70 then Some (c - 55)%N
  else if N.leb 97 c && N.leb c 102 then Some (c - 87)%N
  else None.

Definition hex4 (h1 h2 h3 h4 : code_unit) : option code_unit :=
  match hex_value h1, hex_value h2, hex_value h3, hex_value h4 with
  | Some a, Some b, Some c, Some d => Some (((a * 16 + b) * 16 + c) * 16 + d)%N
  | _, _, _, _ => None
  end.

(** The character a one-letter escape stands for. *)
Definition escape_char (e : code_unit) : option code_unit :=
  if N.eqb e 34 then Some 34%N            (* quotation mark *)
  else if N.eqb e 92 then Some 92%N       (* reverse solidus *)
  else if N.eqb e 47 then Some 47%N       (* solidus *)
  else if N.eqb e 98 then Some 8%N        (* b: backspace *)
  else if N.eqb e 102 then Some 12%N      (* f: form feed *)
  else if N.eqb e 110 then Some 10%N      (* n: line feed *)
  else if N.eqb e 114 then Some 13%N      (* r: carriage return *)
  else if N.eqb e 116 then Some 9%N       (* t: tab *)
  else None.

Definition push (c : code_unit) (r : option (jsstring * jsstring))
  : option (jsstring * jsstring) :=
  match r with
  | Some (chars, rest) => Some (c :: chars, rest)
  | None => None
  end.

(** The characters of a string after its opening quote, up to the closing
    quote: the string's value and the text after it. *)
Fixpoint string_chars (s : jsstring) : option (jsstring * jsstring) :=
  match s with
  | [] => None
  | c :: s1 =>
      if N.eqb c 34 then Some ([], s1)
      else if N.eqb c 92 then
        match s1 with
        | [] => None
        | e :: s2 =>
            if N.eqb e 117 then
              match s2 with
              | h1 :: h2 :: h3 :: h4 :: s6 =>
                  match hex4 h1 h2 h3 h4 with
                  | Some u => push u (string_chars s6)
                  | None => None
                  end
              | _ => None
              end
            else
              match escape_char e with
              | Some ch => push ch (string_chars s2)
              | None => None
              end
        end
      else if N.ltb c 0x20 then None
      else push c (string_chars s1)
  end.

(** The leading decimal digits of a text and what follows them. *)
Fixpoint digits (s : jsstring) : list N * jsstring :=
  match s with
  | c :: s' =>
      if is_digit c then let '(ds, rest) := digits s' in ((c - 48)%N :: ds, rest)
      else ([], s)
  | [] => ([], [])
  end.

Definition digits_value (ds : list N) : Z :=
  fold_left (fun acc d => (acc * 10 + Z.of_N d)%Z) ds 0%Z.

(** A number: [-]? int frac? exp?, read as the nearest binary64 value. *)
Definition number (s : jsstring) : option (spec_float * jsstring) :=
  let '(neg, s1) :=
    match s with
    | c :: s' => if N.eqb c 45 then (true, s') else (false, s)
    | [] => (false, s)
    end in
  let '(int_part, s2) := digits s1 in
  match int_part with
  | [] => None
  | d :: more =>
      if N.eqb d 0 && negb (Nat.eqb (List.length more) 0) then None
      else
        let frac :=
          match s2 with
          | c :: s3 =>
              if N.eqb c 46 then
                let '(fs, s4) := digits s3 in
                match fs with [] => None | _ => Some (fs, s4) end
              else Some ([], s2)
          | [] => Some ([], s2)
          end in
        match frac with
        | None => None
        | Some (frac_part, s5) =>
            let exponent :=
              match s5 with
              | c :: s6 =>
                  if N.eqb c 101 || N.eqb c 69 then
                    let '(eneg, s7) :=
                      match s6 with
                      | sg :: s' =>
                          if N.eqb sg 45 then (true, s')
                          else if N.eqb sg 43 then (false, s')
                          else (false, s6)
                      | [] => (false, s6)
                      end in
                    let '(es, s8) := digits s7 in
                    match es with
                    | [] => None
                    | _ => Some (if eneg then (- digits_value es)%Z
                                 else digits_value es, s8)
                    end
                  else Some (0%Z, s5)
              | [] => Some (0%Z, s5)
              end in
            match exponent with
            | None => None
            | Some (e, rest) =>
                Some (Double.of_decimal neg
                        (digits_value (int_part ++ frac_part))
                        (e - Z.of_nat (List.length frac_part)), rest)
            end
        end
  end.

(** CreateDataProperty: a key met again replaces the value it had. *)
Fixpoint set_member (key : jsstring) (v : value)
    (members : list (jsstring * value)) : list (jsstring * value) :=
  match members with
  | [] => [(key, v)]
  | (k, old) :: rest =>
      if jsstring_eqb k key then (k, v) :: rest
      else (k, old) :: set_member key v rest
  end.

Inductive parsed (A : Type) :=
| Parsed (a : A) (rest : jsstring)
| Failed
| Exhausted.
Arguments Parsed {A} a rest.
Arguments Failed {A}.
Arguments Exhausted {A}.

(** A value, the elements of an array after its first bracket and the
    members of an object after its first brace.  [fuel] bounds the depth
    of the recursion; [fuel_enough] below shows that [parse] gives
    enough of it, so that [Exhausted] is never its answer. *)
Fixpoint parse_value (fuel : nat) (s : jsstring) : parsed value :=
  match fuel with
  | O => Exhausted
  | S fuel' =>
      match skip_ws s with
      | [] => Failed
      | c :: s1 =>
          if N.eqb c 123 then                       (* left brace *)
            match skip_ws s1 with
            | c' :: s2 =>
                if N.eqb c' 125 then Parsed (JObject []) s2
                else parse_members fuel' s1 []
            | [] => Failed
            end
          else if N.eqb c 91 then                   (* left bracket *)
            match skip_ws s1 with
            | c' :: s2 =>
                if N.eqb c' 93 then Parsed (JArray []) s2
                else parse_elements fuel' s1 []
            | [] => Failed
            end
          else if N.eqb c 34 then                   (* string *)
            match string_chars s1 with
            | Some (str, rest) => Parsed (JString str) rest
            | None => Failed
            end
          else if Str.startsWith (lit "true") (c :: s1) then
            Parsed (JBool true) (skipn 4 (c :: s1))
          else if Str.startsWith (lit "false") (c :: s1) then
            Parsed (JBool false) (skipn 5 (c :: s1))
          else if Str.startsWith (lit "null") (c :: s1) then
            Parsed JNull (skipn 4 (c :: s1))
          else
            match number (c :: s1) with
            | Some (x, rest) => Parsed (JNumber x) rest
            | None => Failed
            end
      end
  end

with parse_elements (fuel : nat) (s : jsstring) (acc : list value)
    : parsed value :=
  match fuel with
  | O => Exhausted
  | S fuel' =>
      match parse_value fuel' s with
      | Parsed v rest =>
          match skip_ws rest with
          | c :: rest' =>
              if N.eqb c 44 then parse_elements fuel' rest' (acc ++ [v])
              else if N.eqb c 93 then Parsed (JArray (acc ++ [v])) rest'
              else Failed
          | [] => Failed
          end
      | Failed => Failed
      | Exhausted => Exhausted
      end
  end

with parse_members (fuel : nat) (s : jsstring)
    (acc : list (jsstring * value)) : parsed value :=
  match fuel with
  | O => Exhausted
  | S fuel' =>
      match skip_ws s with
      | q :: s1 =>
          if N.eqb q 34 then
            match string_chars s1 with
            | Some (key, s2) =>
                match skip_ws s2 with
                | colon :: s3 =>
                    if N.eqb colon 58 then
                      match parse_value fuel' s3 with
                      | Parsed v rest =>
                          match skip_ws rest with
                          | c :: rest' =>
                              if N.eqb c 44 then
                                parse_members fuel' rest' (set_member key v acc)
                              else if N.eqb c 125 then
                                Parsed (JObject (set_member key v acc)) rest'
                              else Failed
                          | [] => Failed
                          end
                      | Failed => Failed
                      | Exhausted => Exhausted
                      end
                    else Failed
                | [] => Failed
                end
            | None => Failed
            end
          else Failed
      | [] => Failed
      end
  end.

(** [JSON.parse(text)]: one value between optional white space, or a
    SyntaxError. *)
Definition parse (text : jsstring) : completion value :=
  match parse_value (2 * List.length text + 2) text with
  | Parsed v rest =>
      match skip_ws rest with
      | [] => Normal v
      | _ :: _ => Throw SyntaxError
      end
  | Failed | Exhausted => Throw SyntaxError
  end.

(** *** JSON.stringify (no replacer, no indentation) *)

Definition hex_digit (n : N) : code_unit :=
  if N.ltb n 10 then (48 + n)%N else (87 + n)%N.

(** UnicodeEscape: a reverse solidus, the letter u and four lowercase
    hexadecimal digits. *)
Definition unicode_escape (c : code_unit) : jsstring :=
  [92%N; 117%N; hex_digit (c / 4096); hex_digit ((c / 256) mod 16);
   hex_digit ((c / 16) mod 16); hex_digit (c mod 16)]%N.

Definition is_high_surrogate (c : code_unit) : bool :=
  N.leb 0xD800 c && N.leb c 0xDBFF.
Definition is_low_surrogate (c : code_unit) : bool :=
  N.leb 0xDC00 c && N.leb c 0xDFFF.

(** The characters of QuoteJSONString: the two-character escapes, the
    other control characters and lone surrogates as UnicodeEscape, every
    other code point as it is. *)
Fixpoint quote_chars (s : jsstring) : jsstring :=
  match s with
  | [] => []
  | c :: s1 =>
      if N.eqb c 8 then [92; 98]%N ++ quote_chars s1
      else if N.eqb c 9 then [92; 116]%N ++ quote_chars s1
      else if N.eqb c 10 then [92; 110]%N ++ quote_chars s1
      else if N.eqb c 12 then [92; 102]%N ++ quote_chars s1
      else if N.eqb c 13 then [92; 114]%N ++ quote_chars s1
      else if N.eqb c 34 then [92; 34]%N ++ quote_chars s1
      else if N.eqb c 92 then [92; 92]%N ++ quote_chars s1
      else if N.ltb c 0x20 then unicode_escape c ++ quote_chars s1
      else if is_high_surrogate c then
        match s1 with
        | d :: s2 =>
            if is_low_surrogate d then c :: d :: quote_chars s2
            else unicode_escape c ++ quote_chars s1
        | [] => unicode_escape c
        end
      else if is_low_surrogate c then unicode_escape c ++ quote_chars s1
      else c :: quote_chars s1
  end.

Definition quote (s : jsstring) : jsstring :=
  [34%N] ++ quote_chars s ++ [34%N].

(** SerializeJSONProperty.  The properties of an object are written in
    the order of its member list, which is the order JavaScript
    enumerates them in when no key is an array index, as in the
    handler's envelope. *)
Fixpoint stringify (v : value) : jsstring :=
  match v with
  | JNull => lit "null"
  | JBool true => lit "true"
  | JBool false => lit "false"
  | JNumber x => if Double.is_finite x then Double.toString x else lit "null"
  | JString s => quote s
  | JArray elements =>
      lit "[" ++ Str.join (lit ",") (map stringify elements) ++ lit "]"
  | JObject members =>
      lit "{" ++
      Str.join (lit ",")
        (map (fun kv => quote (fst kv) ++ lit ":" ++ stringify (snd kv))
             members) ++
      lit "}"
  end.

End JSON.

(** ** Property access and conversions *)

Fixpoint own_property (key : jsstring) (members : list (jsstring * value))
    : option value :=
  match members with
  | [] => None
  | (k, v) :: rest =>
      if jsstring_eqb k key then Some v else own_property key rest
  end.

(** A property key that is a canonical array index: [0], [1], ... with no
    leading zero. *)
Definition array_index (key : jsstring) : option nat :=
  match key with
  | [] => None
  | [c] => if JSON.is_digit c then Some (N.to_nat (c - 48)) else None
  | c :: more =>
      if N.leb 49 c && N.leb c 57 && forallb JSON.is_digit more then
        Some (Z.to_nat (JSON.digits_value (map (fun d => (d - 48)%N) key)))
      else None
  end.

(** [v[key]] for a value that is neither [null] nor [undefined]: an own
    property of an object, an element of an array, a character of a
    string; [undefined] ([None]) otherwise.  The handler reads the keys
    [choices], [0], [delta] and [content] only, and none of the built-in
    prototypes has a property of one of these names, so the properties a
    value inherits play no part. *)
Definition get (v : value) (key : jsstring) : option value :=
  match v with
  | JObject members => own_property key members
  | JArray elements =>
      match array_index key with
      | Some i => nth_error elements i
      | None => None
      end
  | JString s =>
      match array_index key with
      | Some i => option_map (fun c => JString [c]) (nth_error s i)
      | None => None
      end
  | JNull | JBool _ | JNumber _ => None
  end.

(** [a.key] and [a[key]]: a TypeError when [a] is [null] or [undefined]. *)
Definition member (a : option value) (key : jsstring)
    : completion (option value) :=
  match a with
  | None | Some JNull => Throw TypeError
  | Some v => Normal (get v key)
  end.

(** [a?.key] and [a?.[key]]: [undefined] when [a] is [null] or
    [undefined]. *)
Definition optional_member (a : option value) (key : jsstring)
    : option value :=
  match a with
  | None | Some JNull => None
  | Some v => get v key
  end.

(** ToBoolean: what an [if] takes for true. *)
Definition ToBoolean (a : option value) : bool :=
  match a with
  | None | Some JNull => false
  | Some (JBool b) => b
  | Some (JNumber x) => negb (Double.is_zero_or_nan x)
  | Some (JString s) => negb (Nat.eqb (List.length s) 0)
  | Some (JArray _) | Some (JObject _) => true
  end.

(** ToString of a parsed value, as [content += v] applies it to [v]
    (through ToPrimitive when [v] is an array or an object).
    - An array is converted by [Array.prototype.join]: its elements'
      strings separated by commas, [null] giving the empty string.
    - An object has no callable property of its own, so the conversion
      uses [Object.prototype.toString], unless an own property named
      [toString] hides it: then there is nothing to call and a
      TypeError is thrown. *)
Fixpoint ToString (v : value) : completion jsstring :=
  match v with
  | JNull => Normal (lit "null")
  | JBool true => Normal (lit "true")
  | JBool false => Normal (lit "false")
  | JNumber x => Normal (Double.toString x)
  | JString s => Normal s
  | JArray elements =>
      (fix join_elements (l : list value) : completion jsstring :=
         match l with
         | [] => Normal []
         | e :: rest =>
             match (match e with JNull => Normal [] | _ => ToString e end) with
             | Throw err => Throw err
             | Normal s =>
                 match rest with
                 | [] => Normal s
                 | _ :: _ =>
                     match join_elements rest with
                     | Normal r => Normal (s ++ lit "," ++ r)
                     | Throw err => Throw err
                     end
                 end
             end
         end) elements
  | JObject members =>
      match own_property (lit "toString") members with
      | Some _ => Throw TypeError
      | None => Normal (lit "[object Object]")
      end
  end.

(** ToString of an expression that may be [undefined]. *)
Definition ToString_opt (a : option value) : completion jsstring :=
  match a with
  | None => Normal (lit "undefined")
  | Some v => ToString v
  end.

(** ** The Fetch API objects the handler touches *)

Module Headers.

(** A header list: names and values in the order they were set. *)
Definition t := list (jsstring * jsstring).

Definition ascii_lower (c : code_unit) : code_unit :=
  if N.leb 65 c && N.leb c 90 then (c + 32)%N else c.

(** Header names are compared without regard to ASCII case. *)
Definition same_name (a b : jsstring) : bool :=
  jsstring_eqb (map ascii_lower a) (map ascii_lower b).

(** [headers.get(name)]: [null] when no header has that name, otherwise
    the values of all headers of that name joined by a comma and a
    space. *)
Definition get (name : jsstring) (h : t) : option jsstring :=
  match filter (fun nv => same_name (fst nv) name) h with
  | [] => None
  | found => Some (Str.join (lit ", ") (map snd found))
  end.

End Headers.

Module Request.
(** The inbound request, as far as the handler reads it. *)
Record t := {
  method : jsstring;
  headers : Headers.t;
  body : option bytes
}.
End Request.

(** The context object of the edge runtime.  The handler reads the
    request from the property it spells [ctx.请求]; the declaration of
    [RequestContext] (package [@edgeone/pages]) is not part of the
    repository, and the property is taken to hold the inbound request. *)
Record RequestContext := {
  请求 : Request.t
}.

Module FetchCall.
(** One call of [fetch(url, init)]. *)
Record t := {
  url : jsstring;
  method : jsstring;
  headers : Headers.t;
  body : option bytes
}.
End FetchCall.

(** The body of the upstream response as [reader.read()] delivers it:
    the chunks in order, followed by [done] ([failure = None]) or by a
    rejected read (the connection dropped).  The model covers the bodies
    that end; on a body that never ends the handler's loop never ends
    either. *)
Record ReadableStream := {
  chunks : list bytes;
  failure : option js_error
}.

Module Upstream.
(** The response [fetch] resolves to.  [body] is [None] for a response
    without a body ([upstream.body] is [null]). *)
Record t := {
  status : Z;
  headers : Headers.t;
  body : option ReadableStream
}.
End Upstream.

Module Response.
(** A response the handler builds with [new Response(text, init)]. *)
Record t := {
  status : Z;
  headers : Headers.t;
  body : jsstring
}.
End Response.

(** [new Response(text, { status, headers })].  As the Fetch standard
    has it, a body given as a string brings the content type
    [text/plain;charset=UTF-8] when [init] names none. *)
Definition new_Response (text : jsstring) (status : Z) (headers : Headers.t)
    : Response.t :=
  {| Response.status := status;
     Response.headers :=
       match Headers.get (lit "Content-Type") headers with
       | Some _ => headers
       | None =>
           headers ++ [(lit "content-type", lit "text/plain;charset=UTF-8")]
       end;
     Response.body := text |}.

(** What the handler cannot decide: the answer of the network to a
    [fetch], the value of [crypto.randomUUID()] and of [Date.now()]. *)
Record Platform := {
  network : FetchCall.t -> completion Upstream.t;
  randomUUID : jsstring;
  now : Z
}.

(** ** The handler's effects

    A computation of the handler either returns or throws (an [async]
    function that throws rejects its promise), and it may call [fetch];
    the calls made so far are logged. *)
Definition M (A : Type) : Type :=
  list FetchCall.t -> completion A * list FetchCall.t.

Definition ret {A : Type} (a : A) : M A := fun log => (Normal a, log).

Definition bind {A B : Type} (m : M A) (k : A -> M B) : M B :=
  fun log =>
    match m log with
    | (Normal a, log') => k a log'
    | (Throw e, log') => (Throw e, log')
    end.

Definition lift {A : Type} (c : completion A) : M A := fun log => (c, log).

Notation "x <- m ;; k" := (bind m (fun x => k))
  (at level 61, m at next level, right associativity).

(** [await fetch(url, init)] *)
Definition fetch (P : Platform) (call : FetchCall.t) : M Upstream.t :=
  fun log => (network P call, log ++ [call]).

(** [upstream.body!.getReader()]: the [!] is erased by the compiler, so
    a [null] body makes the call throw a TypeError. *)
Definition getReader (body : option ReadableStream)
    : completion ReadableStream :=
  match body with
  | Some stream => Normal stream
  | None => Throw TypeError
  end.

(** Sequencing inside the [try] block. *)
Definition and_then {A B : Type} (c : completion A) (k : A -> completion B)
    : completion B :=
  match c with
  | Normal a => k a
  | Throw e => Throw e
  end.

Notation "'let*' x ':=' c 'in' k" := (and_then c (fun x => k))
  (at level 10, x name, c at level 100, k at level 200).

(** ** The handler *)

(** [data.choices?.[0]?.delta?.content] *)
Definition delta_content (data : value) : completion (option value) :=
  let* choices := member (Some data) (lit "choices") in
  Normal (optional_member
            (optional_member (optional_member choices (lit "0")) (lit "delta"))
            (lit "content")).

(** [data.choices[0].delta.content] *)
Definition delta_content_strict (data : value) : completion (option value) :=
  let* choices := member (Some data) (lit "choices") in
  let* first := member choices (lit "0") in
  let* delta := member first (lit "delta") in
  member delta (lit "content").

(** The body of the [try] block for one line that starts with [data:]:
    the new value of [content], or what was thrown. *)
Definition try_block (content line : jsstring) : completion jsstring :=
  let* data := JSON.parse (Str.trim (Str.slice 5 line)) in
  let* test := delta_content data in
  if ToBoolean test then
    let* fragment := delta_content_strict data in
    let* text := ToString_opt fragment in
    Normal (content ++ text)
  else Normal content.

(** The body of [for (const line of chunk.split('\n'))]: [content] after
    the line.  The [catch {}] drops whatever the [try] block threw. *)
Definition process_line (content line : jsstring) : jsstring :=
  if Str.startsWith (lit "data:") line then
    match try_block content line with
    | Normal content' => content'
    | Throw _ => content
    end
  else content.

(** One turn of the [while] loop on a chunk that was read. *)
Definition process_chunk (content : jsstring) (value : bytes) : jsstring :=
  let chunk := TextDecoder.decode value in
  fold_left process_line (Str.split LF chunk) content.

(** The [while (true)] loop over [reader.read()]: a chunk is processed
    and the loop goes on; [done] leaves the loop with [content]; a read
    that rejects throws out of the loop. *)
Fixpoint read_loop (pending : list bytes) (failure : option js_error)
    (content : jsstring) : completion jsstring :=
  match pending with
  | value :: rest => read_loop rest failure (process_chunk content value)
  | [] =>
      match failure with
      | None => Normal content
      | Some e => Throw e
      end
  end.

Definition upstream_url : jsstring :=
  lit "https://ai.enencloud.top/v1/chat/completions".

Definition default_model : jsstring := lit "@tx/deepseek-ai/deepseek-v3-0324".

(** [a || b] on an operand that is a string or [null]. *)
Definition or_else (a : option jsstring) (b : jsstring) : jsstring :=
  match a with
  | Some (c :: s) => c :: s
  | Some [] | None => b
  end.

Definition onRequest (P : Platform) (ctx : RequestContext) : M Response.t :=
  if negb (jsstring_eqb (Request.method (请求 ctx)) (lit "POST")) then
    ret (new_Response (lit "Method Not Allowed") 405 [])
  else
    upstream <- fetch P {| FetchCall.url := upstream_url;
                           FetchCall.method := lit "POST";
                           FetchCall.headers := Request.headers (请求 ctx);
                           FetchCall.body := Request.body (请求 ctx) |} ;;
    reader <- lift (getReader (Upstream.body upstream)) ;;
    content <- lift (read_loop (chunks reader) (failure reader) []) ;;
    ret (new_Response
           (JSON.stringify
              (JObject
                 [(lit "id", JString (randomUUID P));
                  (lit "object", JString (lit "chat.completion"));
                  (lit "created", JNumber (Double.of_Z (now P)));
                  (lit "model",
                   JString (or_else (Headers.get (lit "x-model")
                                       (Upstream.headers upstream))
                                    default_model));
                  (lit "choices",
                   JArray
                     [JObject
                        [(lit "index", JNumber (Double.of_Z 0));
                         (lit "message",
                          JObject [(lit "role", JString (lit "assistant"));
                                   (lit "content", JString content)]);
                         (lit "finish_reason", JString (lit "stop"))]]);
                  (lit "usage",
                   JObject
                     [(lit "prompt_tokens", JNumber (Double.of_Z 0));
                      (lit "completion_tokens", JNumber (Double.of_Z 0));
                      (lit "total_tokens", JNumber (Double.of_Z 0))])]))
           200
           [(lit "Content-Type", lit "application/json")]).

(** Running the handler on a request: what it returned or threw, and the
    calls of [fetch] it made. *)
Definition run (P : Platform) (ctx : RequestContext)
    : completion Response.t * list FetchCall.t :=
  onRequest P ctx [].

(** [_functions/chat.ts] holds the same handler in plain JavaScript under
    the name [onRequestPost]: the runtime routes only POST requests to
    it, and it has no test of the method. *)
Definition onRequestPost (P : Platform) (ctx : RequestContext)
    : M Response.t :=
  upstream <- fetch P {| FetchCall.url := upstream_url;
                         FetchCall.method := lit "POST";
                         FetchCall.headers := Request.headers (请求 ctx);
                         FetchCall.body := Request.body (请求 ctx) |} ;;
  reader <- lift (getReader (Upstream.body upstream)) ;;
  content <- lift (read_loop (chunks reader) (failure reader) []) ;;
  ret (new_Response
         (JSON.stringify
            (JObject
               [(lit "id", JString (randomUUID P));
                (lit "object", JString (lit "chat.completion"));
                (lit "created", JNumber (Double.of_Z (now P)));
                (lit "model",
                 JString (or_else (Headers.get (lit "x-model")
                                     (Upstream.headers upstream))
                                  default_model));
                (lit "choices",
                 JArray
                   [JObject
                      [(lit "index", JNumber (Double.of_Z 0));
                       (lit "message",
                        JObject [(lit "role", JString (lit "assistant"));
                                 (lit "content", JString content)]);
                       (lit "finish_reason", JString (lit "stop"))]]);
                (lit "usage",
                 JObject
                   [(lit "prompt_tokens", JNumber (Double.of_Z 0));
                    (lit "completion_tokens", JNumber (Double.of_Z 0));
                    (lit "total_tokens", JNumber (Double.of_Z 0))])]))
         200
         [(lit "Content-Type", lit "application/json")]).

Definition runPost (P : Platform) (ctx : RequestContext)
    : completion Response.t * list FetchCall.t :=
  onRequestPost P ctx [].

(** ** Names for what the theorems speak about *)

(** The call the handler forwards: the literal of its step 1. *)
Definition forwarded_call (ctx : RequestContext) : FetchCall.t :=
  {| FetchCall.url := upstream_url;
     FetchCall.method := lit "POST";
     FetchCall.headers := Request.headers (请求 ctx);
     FetchCall.body := Request.body (请求 ctx) |}.

(** The object literal of the handler's step 3. *)
Definition envelope (id : jsstring) (created : Z) (model content : jsstring)
    : value :=
  JObject
    [(lit "id", JString id);
     (lit "object", JString (lit "chat.completion"));
     (lit "created", JNumber (Double.of_Z created));
     (lit "model", JString model);
     (lit "choices",
      JArray
        [JObject
           [(lit "index", JNumber (Double.of_Z 0));
            (lit "message",
             JObject [(lit "role", JString (lit "assistant"));
                      (lit "content", JString content)]);
            (lit "finish_reason", JString (lit "stop"))]]);
     (lit "usage",
      JObject
        [(lit "prompt_tokens", JNumber (Double.of_Z 0));
         (lit "completion_tokens", JNumber (Double.of_Z 0));
         (lit "total_tokens", JNumber (Double.of_Z 0))])].

(** The response of the handler's step 3 around an envelope. *)
Definition json_response (env : value) : Response.t :=
  new_Response (JSON.stringify env) 200
    [(lit "Content-Type", lit "application/json")].

(** What one line adds to [content]. *)
Definition line_fragment (line : jsstring) : jsstring := process_line [] line.

(** [content] when the loop is left by [done]. *)
Definition aggregate (chunks : list bytes) : jsstring :=
  fold_left process_chunk chunks [].

(** The lines of a chunk, as the handler's [for] loop meets them. *)
Definition lines_of (value : bytes) : list jsstring :=
  Str.split LF (TextDecoder.decode value).

(** The argument of [JSON.parse] for a line. *)
Definition payload (line : jsstring) : jsstring :=
  Str.trim (Str.slice 5 line).

(** The field [choices[0].message.content] of the JSON document in a
    response body, for reading concrete responses. *)
Definition response_content (r : Response.t) : option value :=
  match JSON.parse (Response.body r) with
  | Normal doc =>
      optional_member
        (optional_member
           (optional_member (optional_member (Some doc) (lit "choices"))
                            (lit "0"))
           (lit "message"))
        (lit "content")
  | Throw _ => None
  end.

(** The field [model] of the JSON document in a response body. *)
Definition response_model (r : Response.t) : option value :=
  match JSON.parse (Response.body r) with
  | Normal doc => optional_member (Some doc) (lit "model")
  | Throw _ => None
  end.

(** The inbound request is a POST. *)
Definition is_POST (ctx : RequestContext) : Prop :=
  Request.method (请求 ctx) = lit "POST".

(** The fields of the JSON document a run returned, [None] when the run
    threw. *)
Definition content_of_run (r : completion Response.t * list FetchCall.t)
    : option value :=
  match fst r with
  | Normal response => response_content response
  | Throw _ => None
  end.

Definition model_of_run (r : completion Response.t * list FetchCall.t)
    : option value :=
  match fst r with
  | Normal response => response_model response
  | Throw _ => None
  end.

(** The delta shape the specification expects of a parsed payload
    (section 4.3): [choices[0].delta.content] is a non-empty string. *)
Definition has_delta_shape (data : value) : Prop :=
  exists s, s <> [] /\ delta_content data = Normal (Some (JString s)).

(** A parsed payload that lacks the expected delta shape, in the
    specification's words: whatever is or is not at
    [choices[0].delta.content], it is no non-empty string. *)
Definition lacks_delta_shape (data : value) : Prop := ~ has_delta_shape data.

(** A malformed [data:] line, in the specification's words: its payload
    is not JSON, or it is JSON that lacks the expected delta shape. *)
Definition malformed (line : jsstring) : Prop :=
  (exists e, JSON.parse (payload line) = Throw e) \/
  (exists data, JSON.parse (payload line) = Normal data /\
                lacks_delta_shape data).

(** What the [try] block of the handler makes nothing of, read off its
    guard [if (data.choices?.[0]?.delta?.content)] and its [catch {}]:
    reading the content throws (the payload is [null]), the content is
    absent or falsy ([undefined], [null], [false], [0], [NaN], the empty
    string), or it cannot be converted to a string (an object with a
    property [toString] of its own). *)
Definition nothing_to_append (data : value) : Prop :=
  (exists e, delta_content data = Throw e) \/
  (exists test, delta_content data = Normal test /\ ToBoolean test = false) \/
  (exists v e, delta_content data = Normal (Some v) /\ ToString v = Throw e).

(** A [data:] line the handler cannot use: its payload is not JSON, or
    it is JSON with nothing to append. *)
Definition unusable (line : jsstring) : Prop :=
  (exists e, JSON.parse (payload line) = Throw e) \/
  (exists data, JSON.parse (payload line) = Normal data /\
                nothing_to_append data).

(** The sentinel record that conventionally ends the upstream stream. *)
Definition DONE_line : jsstring := lit "data: [DONE]".

(** The answer of a parser on [s]: not [Exhausted], and when it parsed
    something, the text left is shorter than [s]. *)
Definition consumed {A : Type} (s : jsstring) (r : JSON.parsed A) : Prop :=
  match r with
  | JSON.Parsed _ rest => List.length rest < List.length s
  | JSON.Failed => True
  | JSON.Exhausted => False
  end.

(** Two outcomes of the handler, on the platforms [P1] and [P2], that
    are the same but for the [id] and [created] of the envelope: the same
    error thrown, or status 200, the same headers and envelopes with the
    same model and content. *)
Definition differ_only_in_id_and_created (P1 P2 : Platform)
    (r1 r2 : completion Response.t) : Prop :=
  (exists e, r1 = Throw e /\ r2 = Throw e) \/
  (exists model content,
     r1 = Normal {| Response.status := 200;
                    Response.headers :=
                      [(lit "Content-Type", lit "application/json")];
                    Response.body :=
                      JSON.stringify
                        (envelope (randomUUID P1) (now P1) model content) |} /\
     r2 = Normal {| Response.status := 200;
                    Response.headers :=
                      [(lit "Content-Type", lit "application/json")];
                    Response.body :=
                      JSON.stringify
                        (envelope (randomUUID P2) (now P2) model content) |}).

(** ** Concrete requests and upstreams *)

Definition POST_request : RequestContext :=
  {| 请求 :=
       {| Request.method := lit "POST";
          Request.headers := [(lit "content-type", lit "application/json")];
          Request.body :=
            Some (quoted_bytes "{'model':'m','messages':[{'role':'user','content':'hi'}]}") |} |}.

Definition GET_request : RequestContext :=
  {| 请求 := {| Request.method := lit "GET";
                Request.headers := [];
                Request.body := None |} |}.

(** An upstream that answers every call with status 200, the given
    headers and a body that delivers the given chunks and ends. *)
Definition streaming (headers : Headers.t) (body : list bytes) : Platform :=
  {| network := fun _ =>
       Normal {| Upstream.status := 200;
                 Upstream.headers := headers;
                 Upstream.body := Some {| chunks := body; failure := None |} |};
     randomUUID := lit "3f2b8c1e-5d4a-4e6f-9a7b-0c1d2e3f4a5b";
     now := 1762000000000 |}.

(** An upstream that cannot be reached: [fetch] rejects. *)
Definition unreachable : Platform :=
  {| network := fun _ => Throw (TransportError "connection refused");
     randomUUID := lit "3f2b8c1e-5d4a-4e6f-9a7b-0c1d2e3f4a5b";
     now := 1762000000000 |}.

(** An upstream whose connection drops after the given chunks. *)
Definition dropping (body : list bytes) : Platform :=
  {| network := fun _ =>
       Normal {| Upstream.status := 200;
                 Upstream.headers := [];
                 Upstream.body :=
                   Some {| chunks := body;
                           failure := Some (TransportError "connection reset") |} |};
     randomUUID := lit "3f2b8c1e-5d4a-4e6f-9a7b-0c1d2e3f4a5b";
     now := 1762000000000 |}.

(** The stream of the scenarios: [Hel] and [lo] in two records. *)
Definition record_Hel : string := "data: {'choices':[{'delta':{'content':'Hel'}}]}".
Definition record_lo : string := "data: {'choices':[{'delta':{'content':'lo'}}]}".

Definition newline : bytes := [Byte.x0a].

(** Two valid records with the line [data: not-json] between them, in
    one chunk. *)
Definition interleaved_chunk : bytes :=
  quoted_bytes record_Hel ++ newline ++
  ascii_bytes "data: not-json" ++ newline ++
  quoted_bytes record_lo ++ newline.

(** Two records, the sentinel, and one more record after it. *)
Definition sentinel_chunk : bytes :=
  quoted_bytes record_Hel ++ newline ++
  ascii_bytes "data: [DONE]" ++ newline ++
  quoted_bytes record_lo ++ newline.

(** One record whose JSON text is cut between two reads. *)
Definition whole_record : bytes :=
  quoted_bytes "data: {'choices':[{'delta':{'content':'Hello'}}]}" ++ newline.
Definition first_read : bytes :=
  quoted_bytes "data: {'choices':[{'delta':{'content':'Hel".
Definition second_read : bytes :=
  quoted_bytes "lo'}}]}" ++ newline.

(** A record whose content is the boolean [true]. *)
Definition true_content_line : jsstring :=
  quoted "data: {'choices':[{'delta':{'content':true}}]}".



(** Upstream headers with an [x-model] header whose value is empty. *)
Definition empty_model_header : Headers.t := [(lit "x-model", [])].

(** The same upstream met by another execution: another UUID is drawn
    and the clock has moved on. *)
Definition another_execution (P : Platform) : Platform :=
  {| network := network P;
     randomUUID := lit "9d8c7b6a-1f2e-4d3c-8b5a-6e7f8091a2b3";
     now := now P + 1500 |}.

(** ** More upstreams *)

(** The platform [P] seen through an upstream that answers with the
    status [status] in place of its own. *)
Definition with_upstream_status (status : Z) (P : Platform) : Platform :=
  {| network := fun call =>
       match network P call with
       | Normal upstream =>
           Normal {| Upstream.status := status;
                     Upstream.headers := Upstream.headers upstream;
                     Upstream.body := Upstream.body upstream |}
       | Throw e => Throw e
       end;
     randomUUID := randomUUID P;
     now := now P |}.

(** An upstream that answers 204 without a body. *)
Definition bodiless : Platform :=
  {| network := fun _ =>
       Normal {| Upstream.status := 204;
                 Upstream.headers := [];
                 Upstream.body := None |};
     randomUUID := lit "3f2b8c1e-5d4a-4e6f-9a7b-0c1d2e3f4a5b";
     now := 1762000000000 |}.

(** A text of white space only, as [trim] sees it. *)
Definition blank (w : jsstring) : Prop :=
  Forall (fun c => Str.is_whitespace c = true) w.

(** ** The chat page

    [app/new/page.tsx]: the React component [NewAIInterface] that posts
    the conversation and shows the answer while it streams in.  The
    component's state is the tuple of its [useState] values; a state
    setter called with a function applies it to the state, and the
    setters of one handler take effect in the order of the calls.
    [handleSubmit] is followed from the call to its end: what the network
    does (the answer to [fetch], the reads, an abort through the signal)
    is given with the environment, and no other handler runs in
    between. *)

(** A string literal of the source that is not ASCII: the code units of
    its UTF-8 text. *)
Definition text (s : string) : jsstring :=
  TextDecoder.decode (list_byte_of_string s).
Arguments text s%_string.

Module Page.

Inductive Role := user | assistant.

Record Message := {
  role : Role;
  content : jsstring
}.

Record ModelOption := {
  id : jsstring;
  name : jsstring
}.

Definition MODEL_OPTIONS : list ModelOption :=
  [{| id := lit "@tx/deepseek-ai/deepseek-r1-distill-qwen-32b";
      name := lit "DeepSeek R1 32B" |};
   {| id := lit "@tx/deepseek-ai/deepseek-r1-0528";
      name := lit "DeepSeek R1 0528" |};
   {| id := lit "@tx/deepseek-ai/deepseek-v3-0324";
      name := lit "DeepSeek V3 0324" |};
   {| id := lit "@hf/meta-llama/meta-llama-3.1-8b-instruct";
      name := lit "LLaMA 3.1 8B" |};
   {| id := lit "@hf/qwen/qwen2.5-7b-instruct";
      name := lit "Qwen 2.5 7B" |};
   {| id := lit "@hf/google/gemma-2-9b-it";
      name := lit "Gemma 2 9B" |}].

(** The [useState] values of the component, and whether
    [abortControllerRef.current] holds a controller. *)
Record State := {
  messages : list Message;
  input : jsstring;
  isLoading : bool;
  isStreaming : bool;
  selectedModel : jsstring;
  showModelSelector : bool;
  abortController : bool
}.

(** The state of the first render: [MODEL_OPTIONS[2].id] is selected. *)
Definition initial : State :=
  {| messages := [];
     input := [];
     isLoading := false;
     isStreaming := false;
     selectedModel :=
       match nth_error MODEL_OPTIONS 2 with
       | Some option => id option
       | None => []
       end;
     showModelSelector := false;
     abortController := false |}.

Definition setMessages (f : list Message -> list Message) (st : State)
    : State :=
  {| messages := f (messages st);
     input := input st;
     isLoading := isLoading st;
     isStreaming := isStreaming st;
     selectedModel := selectedModel st;
     showModelSelector := showModelSelector st;
     abortController := abortController st |}.

Definition setInput (value : jsstring) (st : State) : State :=
  {| messages := messages st;
     input := value;
     isLoading := isLoading st;
     isStreaming := isStreaming st;
     selectedModel := selectedModel st;
     showModelSelector := showModelSelector st;
     abortController := abortController st |}.

Definition setIsLoading (value : bool) (st : State) : State :=
  {| messages := messages st;
     input := input st;
     isLoading := value;
     isStreaming := isStreaming st;
     selectedModel := selectedModel st;
     showModelSelector := showModelSelector st;
     abortController := abortController st |}.

Definition setIsStreaming (value : bool) (st : State) : State :=
  {| messages := messages st;
     input := input st;
     isLoading := isLoading st;
     isStreaming := value;
     selectedModel := selectedModel st;
     showModelSelector := showModelSelector st;
     abortController := abortController st |}.

Definition setSelectedModel (value : jsstring) (st : State) : State :=
  {| messages := messages st;
     input := input st;
     isLoading := isLoading st;
     isStreaming := isStreaming st;
     selectedModel := value;
     showModelSelector := showModelSelector st;
     abortController := abortController st |}.

Definition setShowModelSelector (value : bool) (st : State) : State :=
  {| messages := messages st;
     input := input st;
     isLoading := isLoading st;
     isStreaming := isStreaming st;
     selectedModel := selectedModel st;
     showModelSelector := value;
     abortController := abortController st |}.

(** [abortControllerRef.current = ...] *)
Definition setAbortController (held : bool) (st : State) : State :=
  {| messages := messages st;
     input := input st;
     isLoading := isLoading st;
     isStreaming := isStreaming st;
     selectedModel := selectedModel st;
     showModelSelector := showModelSelector st;
     abortController := held |}.

(** [MODEL_OPTIONS.find(m => m.id === selectedModel)?.name || 'Unknown'] *)
Definition currentModelName (st : State) : jsstring :=
  or_else
    (option_map name
       (find (fun m => jsstring_eqb (id m) (selectedModel st)) MODEL_OPTIONS))
    (lit "Unknown").

(** What the page's [catch] can meet: the abort of the request through
    its signal, the error the page throws itself on a response that is
    not ok, and any other error (of [fetch], of a read, a TypeError). *)
Inductive error :=
| AbortError
| HTTPError (status : Z)
| Thrown (e : js_error).

(** [error instanceof Error && error.name === 'AbortError'] *)
Definition is_abort (err : error) : bool :=
  match err with
  | AbortError => true
  | HTTPError _ | Thrown _ => false
  end.

(** The request the page sends. *)
Record Request := {
  url : jsstring;
  method : jsstring;
  headers : Headers.t;
  body : jsstring
}.

(** The body of the response as the reads deliver it: the chunks, then
    [done] ([ending = None]) or a read that rejects. *)
Record Body := {
  reads : list bytes;
  ending : option error
}.

(** The response [fetch] resolves to. *)
Record Fetched := {
  status : Z;
  stream : option Body
}.

(** [response.ok]: the status is in the range 200 to 299. *)
Definition ok (response : Fetched) : bool :=
  (200 <=? status response)%Z && (status response <=? 299)%Z.

(** The environment of the page: the build mode and base URL of
    [process.env], and what [fetch] does with a request: reject or
    resolve. *)
Record Env := {
  development : bool;
  NEXT_PUBLIC_BASE_URL : jsstring;
  respond : Request -> error + Fetched
}.

(** What a handler does besides setting state. *)
Inductive effect :=
| Fetch (request : Request)
| Abort
| LogParseError (e : js_error)
| LogAborted
| LogError (err : error).

(** The object of a message in the request body. *)
Definition message_json (m : Message) : value :=
  JObject
    [(lit "role",
      JString (match role m with
               | user => lit "user"
               | assistant => lit "assistant"
               end));
     (lit "content", JString (content m))].

(** [newMessages[newMessages.length - 1] = m] on a copy of [prev]: the
    last element is replaced; an empty array keeps no element (index
    [-1] is no element of an array). *)
Definition replace_last (prev : list Message) (m : Message) : list Message :=
  match prev with
  | [] => []
  | _ :: _ => removelast prev ++ [m]
  end.

(** [json.choices?.[0]?.delta?.content || ''] *)
Definition token_of (json : value) : completion value :=
  let* found := delta_content json in
  Normal (match found with
          | Some v => if ToBoolean (Some v) then v else JString []
          | None => JString []
          end).

(** The variables of the read loop: [accumulatedContent], the messages
    as the updates so far leave them, and what was logged. *)
Record Loop := {
  accumulatedContent : jsstring;
  shown : list Message;
  logged : list effect
}.

(** The inner [try] block for one line: the new [accumulatedContent]. *)
Definition try_line (accumulated line : jsstring) : completion jsstring :=
  let* json := JSON.parse (Str.slice 6 line) in
  let* token := token_of json in
  let* appended := ToString token in
  Normal (accumulated ++ appended).

(** The body of [for (const line of lines)]. *)
Definition process_line (loop : Loop) (line : jsstring) : Loop :=
  if negb (Nat.eqb (List.length (Str.trim line)) 0) &&
     Str.startsWith (lit "data: ") line then
    match try_line (accumulatedContent loop) line with
    | Normal accumulated =>
        {| accumulatedContent := accumulated;
           shown := replace_last (shown loop)
                      {| role := assistant; content := accumulated |};
           logged := logged loop |}
    | Throw e =>
        {| accumulatedContent := accumulatedContent loop;
           shown := shown loop;
           logged := logged loop ++ [LogParseError e] |}
    end
  else loop.

(** One turn of the [while] loop on a chunk that was read. *)
Definition process_chunk (loop : Loop) (value : bytes) : Loop :=
  fold_left process_line (Str.split LF (TextDecoder.decode value)) loop.

(** [handleStop] *)
Definition handleStop (st : State) : State * list effect :=
  if abortController st then (setAbortController false st, [Abort])
  else (st, []).

Definition apology : jsstring := text "抱歉，出现了错误。请重试。".

(** [prev.slice(0, -1)] *)
Definition but_last (prev : list Message) : list Message := removelast prev.

(** The [catch (error)] block. *)
Definition catch_block (err : error) (st : State) : State * list effect :=
  if is_abort err then (st, [LogAborted])
  else
    (setMessages
       (fun prev => but_last prev ++
                    [{| role := assistant; content := apology |}]) st,
     [LogError err]).

(** The [finally] block. *)
Definition finally_block (st : State) : State :=
  setAbortController false (setIsStreaming false (setIsLoading false st)).

(** The body of the outer [try] after the call of [fetch]: the state
    and the effects when the block is left, and the error when it is
    left by a throw. *)
Definition after_fetch (answer : error + Fetched) (st : State)
    : State * list effect * option error :=
  match answer with
  | inl err => (st, [], Some err)
  | inr response =>
      if negb (ok response) then (st, [], Some (HTTPError (status response)))
      else
        match stream response with
        | None => (st, [], Some (Thrown TypeError))
        | Some body =>
            let loop :=
              fold_left process_chunk (reads body)
                {| accumulatedContent := [];
                   shown := messages st;
                   logged := [] |} in
            (setMessages (fun _ => shown loop) st, logged loop, ending body)
        end
  end.

(** [handleSubmit] *)
Definition handleSubmit (env : Env) (st : State) : State * list effect :=
  if Nat.eqb (List.length (Str.trim (input st))) 0 || isLoading st then
    (st, [])
  else if isStreaming st then handleStop st
  else
    let userMessage := Str.trim (input st) in
    let st1 :=
      setMessages (fun prev => prev ++ [{| role := assistant; content := [] |}])
        (setMessages
           (fun prev => prev ++ [{| role := user; content := userMessage |}])
           (setIsStreaming true (setIsLoading true (setInput [] st)))) in
    let request :=
      {| url := if development env then NEXT_PUBLIC_BASE_URL env
                else lit "/v1/chat/completions";
         method := lit "POST";
         headers := [(lit "Content-Type", lit "application/json")];
         body :=
           JSON.stringify
             (JObject
                [(lit "messages",
                  JArray (map message_json (messages st) ++
                          [message_json
                             {| role := user; content := userMessage |}]));
                 (lit "network", JBool false);
                 (lit "model", JString (selectedModel st))]) |} in
    let '(st2, effects, thrown) :=
      after_fetch (respond env request) (setAbortController true st1) in
    let '(st3, caught) :=
      match thrown with
      | Some err => catch_block err st2
      | None => (st2, [])
      end in
    (finally_block st3, Fetch request :: effects ++ caught).

(** The click on a model of the selector. *)
Definition selectModel (model : ModelOption) (st : State) : State :=
  setShowModelSelector false (setSelectedModel (id model) st).

(** The click on the selector's button. *)
Definition toggleModelSelector (st : State) : State :=
  setShowModelSelector (negb (showModelSelector st)) st.

(** What the user can do between two submissions: type (or pick a quick
    prompt), open or close the selector, pick one of [MODEL_OPTIONS],
    submit. *)
Inductive event :=
| Type_ (value : jsstring)
| ToggleSelector
| SelectModel (model : ModelOption)
| Submit (env : Env).

Definition step (st : State) (ev : event) : State :=
  match ev with
  | Type_ value => setInput value st
  | ToggleSelector => toggleModelSelector st
  | SelectModel model => selectModel model st
  | Submit env => fst (handleSubmit env st)
  end.

(** The states the page can be in between submissions: the selector
    offers the models of [MODEL_OPTIONS] only. *)
Inductive reachable : State -> Prop :=
| reachable_initial : reachable initial
| reachable_step (st : State) (ev : event) :
    reachable st ->
    (forall model, ev = SelectModel model -> In model MODEL_OPTIONS) ->
    reachable (step st ev).

(** The requests among the effects of a handler. *)
Definition requests (effects : list effect) : list Request :=
  flat_map (fun e => match e with Fetch r => [r] | _ => [] end) effects.

(** [accumulatedContent] after the given chunks. *)
Definition accumulate (chunks : list bytes) : jsstring :=
  accumulatedContent
    (fold_left process_chunk chunks
       {| accumulatedContent := []; shown := []; logged := [] |}).

End Page.

(** The request [handleSubmit] sends from the state [st]: the literal of
    its call of [fetch]. *)
Definition posted (env : Page.Env) (st : Page.State) : Page.Request :=
  {| Page.url := if Page.development env then Page.NEXT_PUBLIC_BASE_URL env
                 else lit "/v1/chat/completions";
     Page.method := lit "POST";
     Page.headers := [(lit "Content-Type", lit "application/json")];
     Page.body :=
       JSON.stringify
         (JObject
            [(lit "messages",
              JArray (map Page.message_json (Page.messages st) ++
                      [Page.message_json
                         {| Page.role := Page.user;
                            Page.content := Str.trim (Page.input st) |}]));
             (lit "network", JBool false);
             (lit "model", JString (Page.selectedModel st))]) |}.

(** [handleSubmit] goes past its two guards: the input is not blank and
    no request is under way. *)
Definition submits (st : Page.State) : Prop :=
  Nat.eqb (List.length (Str.trim (Page.input st))) 0 = false /\
  Page.isLoading st = false /\
  Page.isStreaming st = false.

(** The ways the outer [try] of [handleSubmit] is left by an error:
    [fetch] rejects, the response is not ok, the response has no body, a
    read rejects. *)
Inductive fails_with : Page.error + Page.Fetched -> Page.error -> Prop :=
| fetch_rejected (err : Page.error) : fails_with (inl err) err
| response_not_ok (response : Page.Fetched) :
    Page.ok response = false ->
    fails_with (inr response) (Page.HTTPError (Page.status response))
| response_without_body (response : Page.Fetched) :
    Page.ok response = true ->
    Page.stream response = None ->
    fails_with (inr response) (Page.Thrown TypeError)
| read_rejected (response : Page.Fetched) (body : Page.Body)
    (err : Page.error) :
    Page.ok response = true ->
    Page.stream response = Some body ->
    Page.ending body = Some err ->
    fails_with (inr response) err.

(** The content streamed in before the [try] was left: what the reads
    of the response delivered, nothing when there was no response to
    read. *)
Definition streamed (answer : Page.error + Page.Fetched) : jsstring :=
  match answer with
  | inr response =>
      if Page.ok response then
        match Page.stream response with
        | Some body => Page.accumulate (Page.reads body)
        | None => []
        end
      else []
  | inl _ => []
  end.

(** The state [handleSubmit] leaves when the assistant's message ends
    as [answer]: the user's message and the assistant's are appended,
    the input is cleared and the flags are down. *)
Definition settled (st : Page.State) (answer : jsstring) : Page.State :=
  {| Page.messages :=
       Page.messages st ++
       [{| Page.role := Page.user;
           Page.content := Str.trim (Page.input st) |};
        {| Page.role := Page.assistant; Page.content := answer |}];
     Page.input := [];
     Page.isLoading := false;
     Page.isStreaming := false;
     Page.selectedModel := Page.selectedModel st;
     Page.showModelSelector := Page.showModelSelector st;
     Page.abortController := false |}.

(** The state when [handleSubmit] calls [fetch]: the input is cleared,
    the flags are up, the user's message and an empty message of the
    assistant are appended, and the ref holds a controller. *)
Definition started (st : Page.State) : Page.State :=
  Page.setAbortController true
    (Page.setMessages
       (fun prev => prev ++ [{| Page.role := Page.assistant;
                                Page.content := [] |}])
       (Page.setMessages
          (fun prev => prev ++ [{| Page.role := Page.user;
                                   Page.content := Str.trim (Page.input st) |}])
          (Page.setIsStreaming true
             (Page.setIsLoading true (Page.setInput [] st))))).

(** Induction on a value with the elements of an array and the members
    of an object as induction hypotheses. *)
Section ValueInduction.

Variable Q : value -> Prop.
Hypothesis Q_null : Q JNull.
Hypothesis Q_bool : forall b, Q (JBool b).
Hypothesis Q_number : forall x, Q (JNumber x).
Hypothesis Q_string : forall s, Q (JString s).
Hypothesis Q_array : forall elements, Forall Q elements -> Q (JArray elements).
Hypothesis Q_object :
  forall members, Forall (fun kv => Q (snd kv)) members -> Q (JObject members).

Fixpoint value_induction (v : value) : Q v :=
  match v with
  | JNull => Q_null
  | JBool b => Q_bool b
  | JNumber x => Q_number x
  | JString s => Q_string s
  | JArray elements =>
      Q_array elements
        ((fix all (l : list value) : Forall Q l :=
            match l with
            | [] => Forall_nil Q
            | e :: rest => Forall_cons e (value_induction e) (all rest)
            end) elements)
  | JObject members =>
      Q_object members
        ((fix all (l : list (jsstring * value))
            : Forall (fun kv => Q (snd kv)) l :=
            match l with
            | [] => Forall_nil _
            | kv :: rest =>
                Forall_cons kv (value_induction (snd kv)) (all rest)
            end) members)
  end.

End ValueInduction.

(** No code unit of a text is a line feed. *)
Definition single_line (s : jsstring) : Prop := Forall (fun c => c <> LF) s.

(** Concrete page states and networks. *)
Definition asking : Page.State :=
  Page.setInput (lit "  hi ") Page.initial.

Definition page_env (answer : Page.error + Page.Fetched) : Page.Env :=
  {| Page.development := false;
     Page.NEXT_PUBLIC_BASE_URL := [];
     Page.respond := fun _ => answer |}.

Definition sse_answer (ending : option Page.error) : Page.error + Page.Fetched :=
  inr {| Page.status := 200;
         Page.stream :=
           Some {| Page.reads := [interleaved_chunk]; Page.ending := ending |} |}.

(** The bytes of a text of ASCII characters. *)
Definition ascii_encode (s : jsstring) : bytes :=
  map (fun c => match Byte.of_N c with
                | Some b => b
                | None => Byte.x3f
                end) s.

(** The body of the handler's answer to [POST_request] when the upstream
    streams [interleaved_chunk], as bytes. *)
Definition answer_bytes : bytes :=
  match fst (run (streaming [] [interleaved_chunk]) POST_request) with
  | Normal r => ascii_encode (Response.body r)
  | Throw _ => []
  end.

(** The fourth model of the selector. *)
Definition llama : Page.ModelOption :=
  {| Page.id := lit "@hf/meta-llama/meta-llama-3.1-8b-instruct";
     Page.name := lit "LLaMA 3.1 8B" |}.

(** A conversation made of exchanges: a message of the user followed by
    a message of the assistant, any number of times. *)
Inductive exchanges : list Page.Message -> Prop :=
| exchanges_none : exchanges []
| exchanges_more (question answer : jsstring) (rest : list Page.Message) :
    exchanges rest ->
    exchanges ({| Page.role := Page.user; Page.content := question |} ::
               {| Page.role := Page.assistant; Page.content := answer |} ::
               rest).

(** What the read loop logs: parse errors only. *)
Definition parse_log (e : Page.effect) : Prop :=
  exists err, e = Page.LogParseError err.

(** The request [ctx] sent with the method POST in place of its own. *)
Definition as_POST (ctx : RequestContext) : RequestContext :=
  {| 请求 := {| Request.method := lit "POST";
               Request.headers := Request.headers (请求 ctx);
               Request.body := Request.body (请求 ctx) |} |}.

(** A line on which the page and the handler look for the same record:
    no [data:] line at all, or [data: ] with its space, followed by a
    payload that has no white space around it. *)
Definition plain_line (line : jsstring) : bool :=
  negb (Str.startsWith (lit "data:") line) ||
  (Str.startsWith (lit "data: ") line &&
   jsstring_eqb (Str.trim (Str.slice 6 line)) (Str.slice 6 line)).

(** ** Reading back what [JSON.stringify] wrote *)

(** What can follow a value inside a document: the end of the text, a
    comma, a closing bracket or a closing brace. *)
Definition delimited (rest : jsstring) : Prop :=
  match rest with
  | [] => True
  | c :: _ => c = 44%N \/ c = 93%N \/ c = 125%N
  end.

(** The phases of [JSON.number] after one another, named for the proofs:
    the sign, the fraction and the exponent.  [number_phases] shows that
    [JSON.number] is made of them. *)
Definition number_sign (s : jsstring) : bool * jsstring :=
  match s with
  | c :: s' => if N.eqb c 45 then (true, s') else (false, s)
  | [] => (false, s)
  end.

Definition number_frac (s2 : jsstring) : option (list N * jsstring) :=
  match s2 with
  | c :: s3 =>
      if N.eqb c 46 then
        let '(fs, s4) := JSON.digits s3 in
        match fs with [] => None | _ => Some (fs, s4) end
      else Some ([], s2)
  | [] => Some ([], s2)
  end.

Definition number_exponent (s5 : jsstring) : option (Z * jsstring) :=
  match s5 with
  | c :: s6 =>
      if N.eqb c 101 || N.eqb c 69 then
        let '(eneg, s7) :=
          match s6 with
          | sg :: s' =>
              if N.eqb sg 45 then (true, s')
              else if N.eqb sg 43 then (false, s')
              else (false, s6)
          | [] => (false, s6)
          end in
        let '(es, s8) := JSON.digits s7 in
        match es with
        | [] => None
        | _ => Some (if eneg then (- JSON.digits_value es)%Z
                     else JSON.digits_value es, s8)
        end
      else Some (0%Z, s5)
  | [] => Some (0%Z, s5)
  end.

(** The result of a phase on a text, when [rest] follows the text. *)
Definition with_rest {A : Type} (rest : jsstring)
    (r : option (A * jsstring)) : option (A * jsstring) :=
  match r with
  | Some (a, s) => Some (a, s ++ rest)
  | None => None
  end.

(** A Number that [JSON.stringify] writes as a number (it is finite) and
    whose text [JSON.parse] reads as the same Number. *)
Definition reads_back_number (x : spec_float) : Prop :=
  Double.is_finite x = true /\
  JSON.number (Double.toString x) = Some (x, []).

(** The values [JSON.parse] gives back from what [JSON.stringify] wrote:
    their numbers read back and their objects hold no key twice. *)
#[warnings="-register-all"]
Inductive reads_back : value -> Prop :=
| reads_back_null : reads_back JNull
| reads_back_bool (b : bool) : reads_back (JBool b)
| reads_back_a_number (x : spec_float) :
    reads_back_number x -> reads_back (JNumber x)
| reads_back_string (s : jsstring) : reads_back (JString s)
| reads_back_array (elements : list value) :
    Forall reads_back elements -> reads_back (JArray elements)
| reads_back_object (members : list (jsstring * value)) :
    NoDup (map fst members) ->
    Forall (fun kv => reads_back (snd kv)) members ->
    reads_back (JObject members).

(** The text of one member of an object, as [stringify] writes it. *)
Definition member_text (kv : jsstring * value) : jsstring :=
  JSON.quote (fst kv) ++ lit ":" ++ JSON.stringify (snd kv).

(** The object the page posts: the conversation so far, followed by the
    user's input, and the selected model. *)
Definition conversation (st : Page.State) : value :=
  JObject
    [(lit "messages",
      JArray (map Page.message_json (Page.messages st) ++
              [Page.message_json
                 {| Page.role := Page.user;
                    Page.content := Str.trim (Page.input st) |}]));
     (lit "network", JBool false);
     (lit "model", JString (Page.selectedModel st))].

(** A record of the stream with nothing but a delta content, for
    examples. *)
Definition delta_record (content : jsstring) : list (jsstring * value) :=
  [(lit "choices",
    JArray [JObject [(lit "delta",
                      JObject [(lit "content", JString content)])]])].

(** What a line of a chunk carries for the handler: the string at
    [choices[0].delta.content] when the line starts with [data:] and its
    payload parses to a value with a string there; nothing when the
    payload does not parse, and nothing when the line does not start
    with [data:]. *)
Inductive carries : jsstring -> jsstring -> Prop :=
| carries_content (line : jsstring) (data : value) (c : jsstring) :
    Str.startsWith (lit "data:") line = true ->
    JSON.parse (payload line) = Normal data ->
    delta_content data = Normal (Some (JString c)) ->
    carries line c
| carries_unparsed (line : jsstring) (e : js_error) :
    JSON.parse (payload line) = Throw e ->
    carries line []
| carries_no_data (line : jsstring) :
    Str.startsWith (lit "data:") line = false ->
    carries line [].

(** * Properties *)

(** ** Strings *)

Lemma jsstring_eqb_eq (a b : jsstring) : jsstring_eqb a b = true <-> a = b.
Proof.
  revert b; induction a as [|x a IH]; intros [|y b]; simpl; split;
    try congruence; try reflexivity.
  - intros H. apply andb_prop in H as [Hx Hab].
    apply N.eqb_eq in Hx. apply IH in Hab. congruence.
  - intros H. injection H as -> ->. rewrite N.eqb_refl. simpl.
    now apply IH.
Qed.

Lemma jsstring_eqb_neq (a b : jsstring) : jsstring_eqb a b = false <-> a <> b.
Proof.
  rewrite <- jsstring_eqb_eq. destruct (jsstring_eqb a b); split;
    congruence.
Qed.

Lemma split_nonempty (sep : code_unit) (s : jsstring) : Str.split sep s <> [].
Proof.
  destruct s as [|c s]; simpl; [discriminate|].
  destruct (N.eqb c sep); [discriminate|].
  destruct (Str.split sep s); discriminate.
Qed.

(** Splitting a text that has a separator at a known place: the pieces
    before it followed by the pieces after it. *)
Lemma split_app (sep : code_unit) (a b : jsstring) :
  Str.split sep (a ++ sep :: b) = Str.split sep a ++ Str.split sep b.
Proof.
  induction a as [|c a IH]; simpl.
  - now rewrite N.eqb_refl.
  - destruct (N.eqb c sep).
    + now rewrite IH.
    + rewrite IH. pose proof (split_nonempty sep a) as Hne.
      destruct (Str.split sep a) as [|p ps]; [now elim Hne|reflexivity].
Qed.

Lemma split_no_sep (sep : code_unit) (s : jsstring) :
  Forall (fun c => c <> sep) s -> Str.split sep s = [s].
Proof.
  induction 1 as [|c s Hc _ IH]; simpl; [reflexivity|].
  apply N.eqb_neq in Hc. now rewrite Hc, IH.
Qed.

(** [split] undoes [join] on lines that hold no separator. *)
Lemma split_join (sep : code_unit) (lines : list jsstring) :
  lines <> [] ->
  Forall (Forall (fun c => c <> sep)) lines ->
  Str.split sep (Str.join [sep] lines) = lines.
Proof.
  intros Hne Hall. revert Hne.
  induction Hall as [|l ls Hl Hls IH]; intros Hne; [now elim Hne|].
  destruct ls as [|l' ls'].
  - simpl. now apply split_no_sep.
  - change (Str.join [sep] (l :: l' :: ls'))
      with (l ++ sep :: Str.join [sep] (l' :: ls')).
    rewrite split_app, split_no_sep by assumption.
    rewrite IH by discriminate. reflexivity.
Qed.

(** ** The parser's fuel *)

Lemma skip_ws_length (s : jsstring) :
  List.length (JSON.skip_ws s) <= List.length s.
Proof.
  induction s as [|c s IH]; simpl; [lia|].
  destruct (JSON.is_ws c); simpl; lia.
Qed.

Lemma skip_ws_cons_length (s s' : jsstring) (c : code_unit) :
  JSON.skip_ws s = c :: s' -> List.length s' < List.length s.
Proof.
  intros H. pose proof (skip_ws_length s) as Hle. rewrite H in Hle.
  simpl in Hle. lia.
Qed.

Lemma push_length (c : code_unit) (r : option (jsstring * jsstring))
    (str rest : jsstring) :
  JSON.push c r = Some (str, rest) ->
  exists str', r = Some (str', rest).
Proof.
  destruct r as [[chars rest']|]; simpl; [|discriminate].
  intros H. injection H as _ <-. eauto.
Qed.

Lemma string_chars_length (s : jsstring) :
  forall str rest,
    JSON.string_chars s = Some (str, rest) ->
    List.length rest < List.length s.
Proof.
  remember (List.length s) as n eqn:Hn.
  assert (Hle : List.length s <= n) by lia. clear Hn.
  revert s Hle. induction n as [|n IH]; intros s Hle str rest.
  { destruct s; simpl in *; [discriminate|lia]. }
  destruct s as [|c s1]; simpl in *; [discriminate|].
  destruct (N.eqb c 34).
  { intros H. injection H as _ <-. lia. }
  destruct (N.eqb c 92).
  - destruct s1 as [|e s2]; [discriminate|].
    destruct (N.eqb e 117).
    + destruct s2 as [|h1 [|h2 [|h3 [|h4 s6]]]]; try discriminate.
      destruct (JSON.hex4 h1 h2 h3 h4); [|discriminate].
      intros H. apply push_length in H as [str' H].
      apply IH in H; simpl in *; lia.
    + destruct (JSON.escape_char e); [|discriminate].
      intros H. apply push_length in H as [str' H].
      apply IH in H; simpl in *; lia.
  - destruct (N.ltb c 32); [discriminate|].
    intros H. apply push_length in H as [str' H].
    apply IH in H; simpl in *; lia.
Qed.

Lemma digits_length (s : jsstring) :
  List.length (snd (JSON.digits s)) + List.length (fst (JSON.digits s))
  = List.length s.
Proof.
  induction s as [|c s IH]; simpl; [reflexivity|].
  destruct (JSON.is_digit c); simpl; [|lia].
  destruct (JSON.digits s) as [ds rest]. simpl in *. lia.
Qed.

Lemma number_length (s : jsstring) (x : spec_float) (rest : jsstring) :
  JSON.number s = Some (x, rest) -> List.length rest < List.length s.
Proof.
  unfold JSON.number.
  set (sign := match s with
               | c :: s' => if N.eqb c 45 then (true, s') else (false, s)
               | [] => (false, s)
               end).
  assert (Hsign : List.length (snd sign) <= List.length s).
  { subst sign. destruct s as [|c s']; simpl; [lia|].
    destruct (N.eqb c 45); simpl; lia. }
  destruct sign as [neg s1]. simpl in Hsign.
  pose proof (digits_length s1) as Hint.
  destruct (JSON.digits s1) as [int_part s2]. simpl in Hint.
  destruct int_part as [|d more]; [discriminate|]. simpl in Hint.
  destruct (N.eqb d 0 && negb (Nat.eqb (List.length more) 0)); [discriminate|].
  set (frac := match s2 with
               | c :: s3 =>
                   if N.eqb c 46 then
                     let '(fs, s4) := JSON.digits s3 in
                     match fs with [] => None | _ => Some (fs, s4) end
                   else Some ([], s2)
               | [] => Some ([], s2)
               end).
  assert (Hfrac : forall fp s5, frac = Some (fp, s5) ->
                                List.length s5 <= List.length s2).
  { subst frac. intros fp s5. destruct s2 as [|c s3]; simpl.
    - intros H. injection H as _ <-. simpl. lia.
    - destruct (N.eqb c 46).
      + pose proof (digits_length s3) as Hd.
        destruct (JSON.digits s3) as [fs s4]. simpl in Hd.
        destruct fs; [discriminate|]. intros H. injection H as _ <-. lia.
      + intros H. injection H as _ <-. simpl. lia. }
  destruct frac as [[frac_part s5]|]; [|discriminate].
  specialize (Hfrac _ _ eq_refl).
  set (exponent := match s5 with
              | c :: s6 =>
                  if N.eqb c 101 || N.eqb c 69 then
                    let '(eneg, s7) :=
                      match s6 with
                      | sg :: s' =>
                          if N.eqb sg 45 then (true, s')
                          else if N.eqb sg 43 then (false, s')
                          else (false, s6)
                      | [] => (false, s6)
                      end in
                    let '(es, s8) := JSON.digits s7 in
                    match es with
                    | [] => None
                    | _ => Some (if eneg then (- JSON.digits_value es)%Z
                                 else JSON.digits_value es, s8)
                    end
                  else Some (0%Z, s5)
              | [] => Some (0%Z, s5)
              end).
  assert (Hexp : forall e r, exponent = Some (e, r) ->
                             List.length r <= List.length s5).
  { subst exponent. intros e r. destruct s5 as [|c s6]; simpl.
    - intros H. injection H as _ <-. simpl. lia.
    - destruct (N.eqb c 101 || N.eqb c 69).
      + set (sg := match s6 with
                   | sg :: s' =>
                       if N.eqb sg 45 then (true, s')
                       else if N.eqb sg 43 then (false, s')
                       else (false, s6)
                   | [] => (false, s6)
                   end).
        assert (Hsg : List.length (snd sg) <= List.length s6).
        { subst sg. destruct s6 as [|c0 s']; simpl; [lia|].
          destruct (N.eqb c0 45); simpl; [lia|].
          destruct (N.eqb c0 43); simpl; lia. }
        destruct sg as [eneg s7]. simpl in Hsg.
        pose proof (digits_length s7) as Hd.
        destruct (JSON.digits s7) as [es s8]. simpl in Hd.
        destruct es; [discriminate|]. intros H. injection H as _ <-. lia.
      + intros H. injection H as _ <-. simpl. lia. }
  destruct exponent as [[e r]|]; [|discriminate].
  specialize (Hexp _ _ eq_refl).
  intros H. injection H as _ <-. lia.
Qed.

Lemma startsWith_skipn_length (p s : jsstring) :
  Str.startsWith p s = true ->
  List.length (skipn (List.length p) s) + List.length p = List.length s.
Proof.
  revert s; induction p as [|x p IH]; intros s; simpl.
  - intros _. lia.
  - destruct s as [|c s]; [discriminate|].
    intros H. apply andb_prop in H as [_ H]. apply IH in H. simpl. lia.
Qed.

Section ParserFuel.

Local Arguments Str.startsWith : simpl never.
Local Arguments skipn : simpl never.
Local Arguments JSON.skip_ws : simpl never.
Local Arguments JSON.string_chars : simpl never.
Local Arguments JSON.number : simpl never.
Local Arguments Nat.mul : simpl never.
Local Arguments N.eqb : simpl never.

Lemma parse_fuel (fuel : nat) :
  (forall s, 2 * List.length s + 1 <= fuel ->
             consumed s (JSON.parse_value fuel s)) /\
  (forall s acc, 2 * List.length s + 2 <= fuel ->
                 consumed s (JSON.parse_elements fuel s acc)) /\
  (forall s acc, 2 * List.length s + 2 <= fuel ->
                 consumed s (JSON.parse_members fuel s acc)).
Proof.
  induction fuel as [|fuel [IHv [IHe IHm]]].
  { repeat split; intros; lia. }
  split; [|split].
  - intros s Hfuel. simpl.
    destruct (JSON.skip_ws s) as [|c s1] eqn:Hws; [exact I|].
    apply skip_ws_cons_length in Hws.
    destruct (N.eqb c 123).
    { destruct (JSON.skip_ws s1) as [|c' s2] eqn:Hws'; [exact I|].
      apply skip_ws_cons_length in Hws'.
      destruct (N.eqb c' 125); [simpl; lia|].
      specialize (IHm s1 [] ltac:(lia)).
      destruct (JSON.parse_members fuel s1 []); simpl in *; try lia; exact I. }
    destruct (N.eqb c 91).
    { destruct (JSON.skip_ws s1) as [|c' s2] eqn:Hws'; [exact I|].
      apply skip_ws_cons_length in Hws'.
      destruct (N.eqb c' 93); [simpl; lia|].
      specialize (IHe s1 [] ltac:(lia)).
      destruct (JSON.parse_elements fuel s1 []); simpl in *; try lia; exact I. }
    destruct (N.eqb c 34).
    { destruct (JSON.string_chars s1) as [[str rest]|] eqn:Hstr; [|exact I].
      apply string_chars_length in Hstr. simpl. lia. }
    destruct (Str.startsWith (lit "true") (c :: s1)) eqn:Htrue.
    { apply startsWith_skipn_length in Htrue. simpl in *. lia. }
    destruct (Str.startsWith (lit "false") (c :: s1)) eqn:Hfalse.
    { apply startsWith_skipn_length in Hfalse. simpl in *. lia. }
    destruct (Str.startsWith (lit "null") (c :: s1)) eqn:Hnull.
    { apply startsWith_skipn_length in Hnull. simpl in *. lia. }
    destruct (JSON.number (c :: s1)) as [[x rest]|] eqn:Hnum; [|exact I].
    apply number_length in Hnum. simpl in *. lia.
  - intros s acc Hfuel. simpl.
    specialize (IHv s ltac:(lia)).
    destruct (JSON.parse_value fuel s) as [v rest| |]; simpl in IHv;
      [|exact I|contradiction].
    destruct (JSON.skip_ws rest) as [|c rest'] eqn:Hws; [exact I|].
    apply skip_ws_cons_length in Hws.
    destruct (N.eqb c 44).
    { specialize (IHe rest' (acc ++ [v]) ltac:(lia)).
      destruct (JSON.parse_elements fuel rest' (acc ++ [v])); simpl in *;
        try lia; exact I. }
    destruct (N.eqb c 93); simpl; [lia|exact I].
  - intros s acc Hfuel. simpl.
    destruct (JSON.skip_ws s) as [|q s1] eqn:Hws; [exact I|].
    apply skip_ws_cons_length in Hws.
    destruct (N.eqb q 34); [|exact I].
    destruct (JSON.string_chars s1) as [[key s2]|] eqn:Hkey; [|exact I].
    apply string_chars_length in Hkey.
    destruct (JSON.skip_ws s2) as [|colon s3] eqn:Hws2; [exact I|].
    apply skip_ws_cons_length in Hws2.
    destruct (N.eqb colon 58); [|exact I].
    specialize (IHv s3 ltac:(lia)).
    destruct (JSON.parse_value fuel s3) as [v rest| |]; simpl in IHv;
      [|exact I|contradiction].
    destruct (JSON.skip_ws rest) as [|c rest'] eqn:Hws3; [exact I|].
    apply skip_ws_cons_length in Hws3.
    destruct (N.eqb c 44).
    { specialize (IHm rest' (JSON.set_member key v acc) ltac:(lia)).
      destruct (JSON.parse_members fuel rest' (JSON.set_member key v acc));
        simpl in *; try lia; exact I. }
    destruct (N.eqb c 125); simpl; [lia|exact I].
Qed.

End ParserFuel.

(** [JSON.parse] gives the parser enough fuel: it never runs out, so
    that it throws a SyntaxError only where the text is not JSON. *)
Lemma fuel_enough (text : jsstring) :
  JSON.parse_value (2 * List.length text + 2) text <> JSON.Exhausted.
Proof.
  intros H.
  pose proof (proj1 (parse_fuel (2 * List.length text + 2)) text
                ltac:(lia)) as Hc.
  rewrite H in Hc. exact Hc.
Qed.

(** ** The loop body appends *)

(** The [try] block either leaves [content] as it is or appends to it,
    and what it appends does not depend on [content]. *)
Lemma try_block_app (content line : jsstring) :
  try_block content line =
  let* fragment := try_block [] line in Normal (content ++ fragment).
Proof.
  unfold try_block.
  destruct (JSON.parse (Str.trim (Str.slice 5 line))) as [data|e];
    simpl; [|reflexivity].
  destruct (delta_content data) as [test|e]; simpl; [|reflexivity].
  destruct (ToBoolean test); simpl.
  - destruct (delta_content_strict data) as [fragment|e]; simpl;
      [|reflexivity].
    destruct (ToString_opt fragment) as [text|e]; simpl; reflexivity.
  - now rewrite app_nil_r.
Qed.

Lemma process_line_app (content line : jsstring) :
  process_line content line = content ++ line_fragment line.
Proof.
  unfold line_fragment, process_line.
  destruct (Str.startsWith (lit "data:") line).
  - rewrite try_block_app.
    destruct (try_block [] line) as [fragment|e]; simpl.
    + reflexivity.
    + now rewrite app_nil_r.
  - now rewrite app_nil_r.
Qed.

Lemma process_lines_app (lines : list jsstring) (content : jsstring) :
  fold_left process_line lines content =
  content ++ List.concat (map line_fragment lines).
Proof.
  revert content; induction lines as [|l ls IH]; intros content; simpl.
  - now rewrite app_nil_r.
  - rewrite IH, process_line_app. now rewrite app_assoc.
Qed.

Lemma process_chunk_app (content : jsstring) (value : bytes) :
  process_chunk content value =
  content ++ List.concat (map line_fragment (lines_of value)).
Proof. unfold process_chunk. apply process_lines_app. Qed.

Lemma process_chunks_app (chunks : list bytes) (content : jsstring) :
  fold_left process_chunk chunks content = content ++ aggregate chunks.
Proof.
  unfold aggregate.
  revert content; induction chunks as [|c cs IH]; intros content; simpl.
  - now rewrite app_nil_r.
  - rewrite IH, (IH (process_chunk [] c)), (process_chunk_app content).
    rewrite (process_chunk_app []). simpl. now rewrite app_assoc.
Qed.

Lemma aggregate_cons (value : bytes) (chunks : list bytes) :
  aggregate (value :: chunks) =
  List.concat (map line_fragment (lines_of value)) ++ aggregate chunks.
Proof.
  unfold aggregate at 1. simpl. rewrite process_chunks_app.
  now rewrite process_chunk_app.
Qed.

Lemma aggregate_app (before after : list bytes) :
  aggregate (before ++ after) = aggregate before ++ aggregate after.
Proof.
  unfold aggregate at 1 2. rewrite fold_left_app.
  now rewrite process_chunks_app.
Qed.

(** X1.  The aggregate is the concatenation, in order, of what each line
    of each chunk adds: nothing is added twice or out of order. *)
Lemma aggregate_is_concat_of_fragments (chunks : list bytes) :
  aggregate chunks =
  List.concat (map line_fragment (flat_map lines_of chunks)).
Proof.
  induction chunks as [|value rest IH]; [reflexivity|].
  rewrite aggregate_cons, IH. simpl.
  now rewrite map_app, concat_app.
Qed.

(** The loop is left with the aggregate of all chunks when the body
    ends, and by the thrown error when a read rejects. *)
Lemma read_loop_done (chunks : list bytes) (content : jsstring) :
  read_loop chunks None content = Normal (content ++ aggregate chunks).
Proof.
  rewrite <- process_chunks_app.
  revert content; induction chunks as [|c cs IH]; intros content; simpl;
    [reflexivity|apply IH].
Qed.

Lemma read_loop_failed (chunks : list bytes) (e : js_error)
    (content : jsstring) :
  read_loop chunks (Some e) content = Throw e.
Proof.
  revert content; induction chunks as [|c cs IH]; intros content; simpl;
    [reflexivity|apply IH].
Qed.

(** ** The handler's paths *)

Lemma run_not_POST (P : Platform) (ctx : RequestContext) :
  ~ is_POST ctx ->
  run P ctx = (Normal (new_Response (lit "Method Not Allowed") 405 []), []).
Proof.
  unfold is_POST, run, onRequest. intros H.
  apply jsstring_eqb_neq in H. now rewrite H.
Qed.

Lemma runPost_cases (P : Platform) (ctx : RequestContext) :
  runPost P ctx =
  match network P (forwarded_call ctx) with
  | Throw e => (Throw e, [forwarded_call ctx])
  | Normal upstream =>
      match Upstream.body upstream with
      | None => (Throw TypeError, [forwarded_call ctx])
      | Some reader =>
          match failure reader with
          | Some e => (Throw e, [forwarded_call ctx])
          | None =>
              (Normal
                 (json_response
                    (envelope (randomUUID P) (now P)
                       (or_else (Headers.get (lit "x-model")
                                   (Upstream.headers upstream))
                                default_model)
                       (aggregate (chunks reader)))),
               [forwarded_call ctx])
          end
      end
  end.
Proof.
  unfold runPost, onRequestPost.
  unfold bind, fetch, lift, ret. fold (forwarded_call ctx). simpl.
  destruct (network P (forwarded_call ctx)) as [upstream|e]; [|reflexivity].
  destruct (Upstream.body upstream) as [reader|]; simpl; [|reflexivity].
  destruct (failure reader) as [e|].
  - now rewrite read_loop_failed.
  - rewrite read_loop_done. reflexivity.
Qed.

(** On a POST the two handlers are the same computation. *)
Lemma onRequest_POST_is_onRequestPost (P : Platform) (ctx : RequestContext) :
  is_POST ctx -> onRequest P ctx = onRequestPost P ctx.
Proof.
  unfold is_POST, onRequest, onRequestPost. intros H.
  apply jsstring_eqb_eq in H. now rewrite H.
Qed.

Lemma run_POST (P : Platform) (ctx : RequestContext) :
  is_POST ctx ->
  run P ctx =
  match network P (forwarded_call ctx) with
  | Throw e => (Throw e, [forwarded_call ctx])
  | Normal upstream =>
      match Upstream.body upstream with
      | None => (Throw TypeError, [forwarded_call ctx])
      | Some reader =>
          match failure reader with
          | Some e => (Throw e, [forwarded_call ctx])
          | None =>
              (Normal
                 (json_response
                    (envelope (randomUUID P) (now P)
                       (or_else (Headers.get (lit "x-model")
                                   (Upstream.headers upstream))
                                default_model)
                       (aggregate (chunks reader)))),
               [forwarded_call ctx])
          end
      end
  end.
Proof.
  intros H. unfold run. rewrite (onRequest_POST_is_onRequestPost P ctx H).
  apply runPost_cases.
Qed.

(** ** The claims *)

(** C4.  A request whose method is not POST is answered with status 405
    and the plain-text body [Method Not Allowed], and the handler makes
    no call of [fetch]: the log of calls is empty. *)
Theorem non_POST_is_405_without_fetch (P : Platform) (ctx : RequestContext) :
  Request.method (请求 ctx) <> lit "POST" ->
  run P ctx =
  (Normal {| Response.status := 405;
             Response.headers :=
               [(lit "content-type", lit "text/plain;charset=UTF-8")];
             Response.body := lit "Method Not Allowed" |},
   []).
Proof.
  intros H. rewrite run_not_POST by exact H. reflexivity.
Qed.

Lemma non_POST_is_405_witness :
  Request.method (请求 GET_request) <> lit "POST" /\
  run unreachable GET_request =
  (Normal {| Response.status := 405;
             Response.headers :=
               [(lit "content-type", lit "text/plain;charset=UTF-8")];
             Response.body := lit "Method Not Allowed" |},
   []).
Proof.
  assert (H : Request.method (请求 GET_request) <> lit "POST")
    by (vm_compute; discriminate).
  split; [exact H|].
  exact (non_POST_is_405_without_fetch unreachable GET_request H).
Defined.

(** C5.  When the upstream body was read to its end, the handler returns
    status 200 with the content type [application/json], and the body is
    the JSON text of an envelope whose [object] is [chat.completion],
    whose [choices] hold exactly one choice with index 0, the role
    [assistant], the aggregated content and the finish reason [stop],
    and whose three usage counters are zero whatever the chunks were. *)
Theorem success_is_200_envelope (P : Platform) (ctx : RequestContext)
    (st : Z) (hs : Headers.t) (body : list bytes) :
  is_POST ctx ->
  network P (forwarded_call ctx) =
    Normal {| Upstream.status := st;
              Upstream.headers := hs;
              Upstream.body := Some {| chunks := body; failure := None |} |} ->
  run P ctx =
  (Normal
     {| Response.status := 200;
        Response.headers := [(lit "Content-Type", lit "application/json")];
        Response.body :=
          JSON.stringify
            (JObject
               [(lit "id", JString (randomUUID P));
                (lit "object", JString (lit "chat.completion"));
                (lit "created", JNumber (Double.of_Z (now P)));
                (lit "model",
                 JString (or_else (Headers.get (lit "x-model") hs)
                                  default_model));
                (lit "choices",
                 JArray
                   [JObject
                      [(lit "index", JNumber (S754_zero false));
                       (lit "message",
                        JObject
                          [(lit "role", JString (lit "assistant"));
                           (lit "content", JString (aggregate body))]);
                       (lit "finish_reason", JString (lit "stop"))]]);
                (lit "usage",
                 JObject
                   [(lit "prompt_tokens", JNumber (S754_zero false));
                    (lit "completion_tokens", JNumber (S754_zero false));
                    (lit "total_tokens", JNumber (S754_zero false))])]) |},
   [forwarded_call ctx]).
Proof.
  intros HP Hnet. rewrite run_POST by exact HP. rewrite Hnet. simpl.
  reflexivity.
Qed.

Lemma success_is_200_witness :
  is_POST POST_request /\
  exists r,
    run (streaming [] [quoted_bytes "data: {'choices':[{'delta':{'content':'Hi'}}]}"])
        POST_request = (Normal r, [forwarded_call POST_request]) /\
    Response.status r = 200%Z /\
    content_of_run (Normal r, []) = Some (JString (lit "Hi")).
Proof.
  split; [reflexivity|].
  eexists. split; [|split].
  - apply (success_is_200_envelope
             (streaming [] [quoted_bytes "data: {'choices':[{'delta':{'content':'Hi'}}]}"])
             POST_request 200 []
             [quoted_bytes "data: {'choices':[{'delta':{'content':'Hi'}}]}"]);
      reflexivity.
  - reflexivity.
  - vm_compute. reflexivity.
Defined.

(** ** Lines that add nothing *)

Lemma line_fragment_not_data (line : jsstring) :
  Str.startsWith (lit "data:") line = false -> line_fragment line = [].
Proof. unfold line_fragment, process_line. now intros ->. Qed.

(** A [data:] line whose payload was parsed: what [process_line] does
    with it, in terms of the value at [choices[0].delta.content]. *)
Lemma optional_member_strict (a : option value) (key : jsstring) (v : value) :
  optional_member a key = Some v -> member a key = Normal (Some v).
Proof. destruct a as [[]|]; simpl; congruence. Qed.

Lemma optional_member_some (a : option value) (key : jsstring) (v : value) :
  optional_member a key = Some v -> exists w, a = Some w.
Proof. destruct a as [w|]; simpl; [eauto|discriminate]. Qed.

(** When the optional chain finds a value, the plain chain of the
    assignment finds the same value. *)
Lemma delta_content_strict_agrees (data v : value) :
  delta_content data = Normal (Some v) ->
  delta_content_strict data = Normal (Some v).
Proof.
  unfold delta_content, delta_content_strict.
  destruct (member (Some data) (lit "choices")) as [choices|e]; simpl;
    [|discriminate].
  intros H. injection H as H.
  destruct (optional_member_some _ _ _ H) as [delta Hdelta].
  rewrite Hdelta in H.
  destruct (optional_member_some _ _ _ Hdelta) as [first Hfirst].
  rewrite Hfirst in Hdelta.
  rewrite (optional_member_strict _ _ _ Hfirst). cbn [and_then].
  rewrite (optional_member_strict _ _ _ Hdelta). cbn [and_then].
  now apply optional_member_strict.
Qed.

Lemma process_data_line (content line : jsstring) (data : value) :
  Str.startsWith (lit "data:") line = true ->
  JSON.parse (payload line) = Normal data ->
  process_line content line =
  match delta_content data with
  | Normal (Some v) =>
      if ToBoolean (Some v) then
        match ToString v with
        | Normal text => content ++ text
        | Throw _ => content
        end
      else content
  | Normal None | Throw _ => content
  end.
Proof.
  intros Hstart Hparse. unfold process_line, try_block.
  rewrite Hstart. fold (payload line). rewrite Hparse. cbn [and_then].
  destruct (delta_content data) as [[v|]|e] eqn:Hd; cbn [and_then];
    try reflexivity.
  destruct (ToBoolean (Some v)); [|reflexivity].
  rewrite (delta_content_strict_agrees _ _ Hd). cbn [and_then ToString_opt].
  destruct (ToString v); reflexivity.
Qed.

Lemma process_unparsed_line (content line : jsstring) (e : js_error) :
  JSON.parse (payload line) = Throw e -> process_line content line = content.
Proof.
  intros Hparse. unfold process_line, try_block.
  fold (payload line). rewrite Hparse. cbn [and_then].
  now destruct (Str.startsWith (lit "data:") line).
Qed.

(** A line that adds nothing leaves the lines and chunks around it to be
    aggregated as if it were not there. *)
Lemma aggregate_around_silent_line (before after : list bytes) (value : bytes)
    (earlier later : list jsstring) (line : jsstring) :
  line_fragment line = [] ->
  lines_of value = earlier ++ line :: later ->
  aggregate (before ++ value :: after) =
  aggregate before ++ List.concat (map line_fragment earlier) ++
  List.concat (map line_fragment later) ++ aggregate after.
Proof.
  intros Hline Hlines.
  rewrite aggregate_app, aggregate_cons, Hlines, map_app, concat_app.
  simpl. rewrite Hline. simpl. now rewrite <- !app_assoc.
Qed.

Lemma run_success (P : Platform) (ctx : RequestContext) (upstream : Upstream.t)
    (body : list bytes) :
  is_POST ctx ->
  network P (forwarded_call ctx) = Normal upstream ->
  Upstream.body upstream = Some {| chunks := body; failure := None |} ->
  run P ctx =
  (Normal (json_response
             (envelope (randomUUID P) (now P)
                (or_else (Headers.get (lit "x-model")
                            (Upstream.headers upstream))
                         default_model)
                (aggregate body))),
   [forwarded_call ctx]).
Proof.
  intros HP Hnet Hbody. rewrite run_POST by exact HP.
  now rewrite Hnet, Hbody.
Qed.



(** The malformed lines that are not skipped: the payload parses, the
    value at [choices[0].delta.content] is truthy, and its string
    conversion is appended. *)
Lemma malformed_line_cases (line : jsstring) :
  Str.startsWith (lit "data:") line = true ->
  malformed line ->
  unusable line \/
  exists data v text,
    JSON.parse (payload line) = Normal data /\
    delta_content data = Normal (Some v) /\
    ToBoolean (Some v) = true /\
    ToString v = Normal text /\
    forall content, process_line content line = content ++ text.
Proof.
  intros Hstart [He|[data [Hparse _]]]; [left; now left|].
  destruct (delta_content data) as [[v|]|e] eqn:Hd.
  - destruct (ToBoolean (Some v)) eqn:Htruthy.
    + destruct (ToString v) as [text|e] eqn:Hs.
      * right. exists data, v, text. repeat split; try assumption.
        intros content.
        rewrite (process_data_line content line data Hstart Hparse).
        now rewrite Hd, Htruthy, Hs.
      * left. right. exists data. split; [exact Hparse|].
        right. right. now exists v, e.
    + left. right. exists data. split; [exact Hparse|].
      right. left. now exists (Some v).
  - left. right. exists data. split; [exact Hparse|].
    right. left. now exists None.
  - left. right. exists data. split; [exact Hparse|]. left. now exists e.
Qed.




(** C8.  The line [data: [DONE]] has no meaning of its own for the
    handler: its payload is no JSON text, so the line is skipped like any
    other unparseable record, and the loop goes on reading after it.  It
    is left only when the body ends: the lines and chunks that follow
    the sentinel are aggregated, and a read that fails after the
    sentinel still makes the handler throw. *)
Theorem DONE_sentinel_is_not_special
    (P : Platform) (ctx : RequestContext) (upstream : Upstream.t)
    (before after : list bytes) (value : bytes)
    (earlier later : list jsstring) (ending : option js_error) :
  is_POST ctx ->
  network P (forwarded_call ctx) = Normal upstream ->
  Upstream.body upstream =
    Some {| chunks := before ++ value :: after; failure := ending |} ->
  lines_of value = earlier ++ DONE_line :: later ->
  JSON.parse (payload DONE_line) = Throw SyntaxError /\
  (forall content, process_line content DONE_line = content) /\
  run P ctx =
  match ending with
  | Some e => (Throw e, [forwarded_call ctx])
  | None =>
      (Normal (json_response
                 (envelope (randomUUID P) (now P)
                    (or_else (Headers.get (lit "x-model")
                                (Upstream.headers upstream))
                             default_model)
                    (aggregate before ++
                     List.concat (map line_fragment earlier) ++
                     List.concat (map line_fragment later) ++
                     aggregate after))),
       [forwarded_call ctx])
  end.
Proof.
  intros HP Hnet Hbody Hlines.
  assert (Hparse : JSON.parse (payload DONE_line) = Throw SyntaxError)
    by (vm_compute; reflexivity).
  assert (Hskip : forall content, process_line content DONE_line = content)
    by (intros content; exact (process_unparsed_line content _ _ Hparse)).
  split; [exact Hparse|]. split; [exact Hskip|].
  rewrite (run_POST P ctx HP), Hnet, Hbody. simpl.
  destruct ending as [e|]; [reflexivity|].
  now rewrite (aggregate_around_silent_line before after value earlier later
                 DONE_line (Hskip []) Hlines).
Qed.

Lemma DONE_sentinel_witness :
  lines_of sentinel_chunk =
    [quoted record_Hel] ++ DONE_line :: [quoted record_lo; []] /\
  content_of_run (run (streaming [] [sentinel_chunk]) POST_request) =
  Some (JString (lit "Hello")).
Proof.
  assert (Hlines : lines_of sentinel_chunk =
            [quoted record_Hel] ++ DONE_line :: [quoted record_lo; []])
    by (vm_compute; reflexivity).
  split; [exact Hlines|].
  destruct (DONE_sentinel_is_not_special
              (streaming [] [sentinel_chunk]) POST_request
              {| Upstream.status := 200; Upstream.headers := [];
                 Upstream.body :=
                   Some {| chunks := [sentinel_chunk]; failure := None |} |}
              [] [] sentinel_chunk
              [quoted record_Hel] [quoted record_lo; []] None
              eq_refl eq_refl eq_refl Hlines) as [_ [_ Hrun]].
  rewrite Hrun. vm_compute. reflexivity.
Defined.

Lemma aggregate_no_data_line (body : list bytes) :
  Forall (fun value =>
            Forall (fun line => Str.startsWith (lit "data:") line = false)
                   (lines_of value)) body ->
  aggregate body = [].
Proof.
  induction 1 as [|value rest Hvalue _ IH]; [reflexivity|].
  rewrite aggregate_cons, IH, app_nil_r.
  induction Hvalue as [|line lines Hline _ IHl]; [reflexivity|].
  simpl. now rewrite (line_fragment_not_data line Hline), IHl.
Qed.

(** C10.  When no line of any chunk starts with [data:] (in particular
    when the body delivers no chunk at all), the handler still returns
    status 200 with an envelope, whose message content is the empty
    string. *)
Theorem no_data_line_gives_empty_content
    (P : Platform) (ctx : RequestContext) (upstream : Upstream.t)
    (body : list bytes) :
  is_POST ctx ->
  network P (forwarded_call ctx) = Normal upstream ->
  Upstream.body upstream = Some {| chunks := body; failure := None |} ->
  Forall (fun value =>
            Forall (fun line => Str.startsWith (lit "data:") line = false)
                   (lines_of value)) body ->
  run P ctx =
  (Normal
     {| Response.status := 200;
        Response.headers := [(lit "Content-Type", lit "application/json")];
        Response.body :=
          JSON.stringify
            (envelope (randomUUID P) (now P)
               (or_else (Headers.get (lit "x-model")
                           (Upstream.headers upstream))
                        default_model)
               []) |},
   [forwarded_call ctx]).
Proof.
  intros HP Hnet Hbody Hnone.
  rewrite (run_success P ctx upstream body HP Hnet Hbody).
  now rewrite (aggregate_no_data_line body Hnone).
Qed.

Lemma no_data_line_witness :
  content_of_run (run (streaming [] []) POST_request) = Some (JString []) /\
  content_of_run
    (run (streaming [] [ascii_bytes ": keep-alive"; ascii_bytes "event: ping"])
         POST_request) = Some (JString []).
Proof.
  split.
  - rewrite (no_data_line_gives_empty_content
               (streaming [] []) POST_request
               {| Upstream.status := 200; Upstream.headers := [];
                  Upstream.body := Some {| chunks := []; failure := None |} |}
               [] eq_refl eq_refl eq_refl (Forall_nil _)).
    vm_compute. reflexivity.
  - rewrite (no_data_line_gives_empty_content
               (streaming [] [ascii_bytes ": keep-alive"; ascii_bytes "event: ping"])
               POST_request
               {| Upstream.status := 200; Upstream.headers := [];
                  Upstream.body :=
                    Some {| chunks := [ascii_bytes ": keep-alive";
                                       ascii_bytes "event: ping"];
                            failure := None |} |}
               _ eq_refl eq_refl eq_refl).
    + vm_compute. reflexivity.
    + repeat constructor.
Defined.

(** C7, as the claim states it, fails: the payload below parses, its
    [choices[0].delta.content] is the boolean [true] and no string, and
    yet the line appends the text [true] to the accumulator. *)
Lemma non_string_content_counterexample :
  JSON.parse (payload true_content_line) =
    Normal (JObject
              [(lit "choices",
                JArray [JObject [(lit "delta",
                                  JObject [(lit "content", JBool true)])]])]) /\
  process_line [] true_content_line = lit "true".
Proof. split; vm_compute; reflexivity. Qed.

(** C7, amended.  For a [data:] line whose payload was parsed, the text
    of [choices[0].delta.content] is appended exactly when that value is
    truthy and can be converted to a string: a string is appended as it
    is (the empty string, being falsy, adds nothing), [true], a non-zero
    number, an array or an object are appended as JavaScript converts
    them to a string.  A value that is absent or falsy adds nothing, and
    in every case the lines that follow are processed. *)
Theorem truthy_content_is_appended (content line : jsstring) (data : value) :
  Str.startsWith (lit "data:") line = true ->
  JSON.parse (payload line) = Normal data ->
  process_line content line =
    match delta_content data with
    | Normal (Some v) =>
        if ToBoolean (Some v) then
          match ToString v with
          | Normal text => content ++ text
          | Throw _ => content
          end
        else content
    | Normal None | Throw _ => content
    end /\
  (forall s, delta_content data = Normal (Some (JString s)) ->
             process_line content line = content ++ s) /\
  (forall v, delta_content data = Normal (Some v) ->
             ToBoolean (Some v) = false ->
             process_line content line = content) /\
  (delta_content data = Normal None \/ delta_content data = Throw TypeError ->
   process_line content line = content) /\
  (forall earlier later acc,
     fold_left process_line (earlier ++ line :: later) acc =
     fold_left process_line later
       (process_line (fold_left process_line earlier acc) line)).
Proof.
  intros Hstart Hparse.
  pose proof (process_data_line content line data Hstart Hparse) as Heq.
  split; [exact Heq|]. split; [|split; [|split]].
  - intros s Hs. rewrite Heq, Hs. simpl.
    destruct s; simpl; [now rewrite app_nil_r|reflexivity].
  - intros v Hv Hfalse. rewrite Heq, Hv, Hfalse. reflexivity.
  - intros [H|H]; rewrite Heq, H; reflexivity.
  - intros earlier later acc. now rewrite fold_left_app.
Qed.

Lemma truthy_content_witness :
  process_line (lit "Hel") (quoted record_lo) = lit "Hello".
Proof.
  pose proof (truthy_content_is_appended (lit "Hel") (quoted record_lo)
                (JObject
                   [(lit "choices",
                     JArray [JObject [(lit "delta",
                                       JObject [(lit "content",
                                                 JString (lit "lo"))])]])])) as H.
  destruct H as [_ [H _]].
  - vm_compute. reflexivity.
  - vm_compute. reflexivity.
  - rewrite (H (lit "lo")); vm_compute; reflexivity.
Defined.

(** C6, as the claim states it, fails: the upstream response below has
    an [x-model] header, its value is the empty string, and the model of
    the envelope is the default literal and not that value. *)
Lemma empty_model_header_counterexample :
  Headers.get (lit "x-model") empty_model_header = Some [] /\
  model_of_run (run (streaming empty_model_header []) POST_request) =
    Some (JString default_model) /\
  default_model <> [].
Proof.
  split; [reflexivity|]. split; [vm_compute; reflexivity|].
  vm_compute. discriminate.
Qed.

(** C6, amended.  The model of the envelope is the value of the upstream
    [x-model] header when the header is present with a value that is not
    empty, and the default literal otherwise: when the header is absent
    or its value is the empty string. *)
Theorem model_is_nonempty_header_or_default
    (P : Platform) (ctx : RequestContext) (upstream : Upstream.t)
    (body : list bytes) :
  is_POST ctx ->
  network P (forwarded_call ctx) = Normal upstream ->
  Upstream.body upstream = Some {| chunks := body; failure := None |} ->
  exists model,
    run P ctx =
      (Normal (json_response
                 (envelope (randomUUID P) (now P) model (aggregate body))),
       [forwarded_call ctx]) /\
    get (envelope (randomUUID P) (now P) model (aggregate body)) (lit "model")
      = Some (JString model) /\
    (forall v, Headers.get (lit "x-model") (Upstream.headers upstream) = Some v ->
               v <> [] -> model = v) /\
    (Headers.get (lit "x-model") (Upstream.headers upstream) = Some [] ->
     model = lit "@tx/deepseek-ai/deepseek-v3-0324") /\
    (Headers.get (lit "x-model") (Upstream.headers upstream) = None ->
     model = lit "@tx/deepseek-ai/deepseek-v3-0324").
Proof.
  intros HP Hnet Hbody.
  exists (or_else (Headers.get (lit "x-model") (Upstream.headers upstream))
                  default_model).
  split; [exact (run_success P ctx upstream body HP Hnet Hbody)|].
  split; [reflexivity|].
  destruct (Headers.get (lit "x-model") (Upstream.headers upstream))
    as [[|c v]|]; simpl; repeat split; intros; try congruence; reflexivity.
Qed.

Lemma model_header_witness :
  model_of_run (run (streaming [(lit "X-Model", lit "deepseek-r1")] [])
                    POST_request) = Some (JString (lit "deepseek-r1")) /\
  model_of_run (run (streaming [] []) POST_request) =
    Some (JString (lit "@tx/deepseek-ai/deepseek-v3-0324")).
Proof.
  split.
  - destruct (model_is_nonempty_header_or_default
                (streaming [(lit "X-Model", lit "deepseek-r1")] [])
                POST_request
                {| Upstream.status := 200;
                   Upstream.headers := [(lit "X-Model", lit "deepseek-r1")];
                   Upstream.body := Some {| chunks := []; failure := None |} |}
                [] eq_refl eq_refl eq_refl) as [model [Hrun [_ [Hset _]]]].
    rewrite Hrun, (Hset (lit "deepseek-r1")).
    + vm_compute. reflexivity.
    + reflexivity.
    + vm_compute. discriminate.
  - destruct (model_is_nonempty_header_or_default
                (streaming [] []) POST_request
                {| Upstream.status := 200;
                   Upstream.headers := [];
                   Upstream.body := Some {| chunks := []; failure := None |} |}
                [] eq_refl eq_refl eq_refl) as [model [Hrun [_ [_ [_ Hnone]]]]].
    rewrite Hrun, (Hnone eq_refl). vm_compute. reflexivity.
Defined.

Lemma runPost_alike (P1 P2 : Platform) (ctx1 ctx2 : RequestContext)
    (upstream : Upstream.t) :
  network P1 (forwarded_call ctx1) = Normal upstream ->
  network P2 (forwarded_call ctx2) = Normal upstream ->
  differ_only_in_id_and_created P1 P2
    (fst (runPost P1 ctx1)) (fst (runPost P2 ctx2)).
Proof.
  intros Hnet1 Hnet2. unfold differ_only_in_id_and_created.
  rewrite !runPost_cases, Hnet1, Hnet2.
  destruct (Upstream.body upstream) as [reader|].
  - destruct (failure reader) as [e|].
    + left. exists e. split; reflexivity.
    + right. eexists _, _. split; reflexivity.
  - left. exists TypeError. split; reflexivity.
Qed.

(** C9.  Two executions that receive the same upstream response (status,
    headers and chunks) end alike, whatever UUID each draws and whatever
    its clock shows: both throw the same error, or both return status
    200 with the same headers and JSON documents that differ in [id] and
    [created] only; the model and the content are the same in both.
    This holds of [onRequestPost], and of [onRequest] on POST requests. *)
Theorem runs_differ_only_in_id_and_created
    (P1 P2 : Platform) (ctx1 ctx2 : RequestContext) (upstream : Upstream.t) :
  network P1 (forwarded_call ctx1) = Normal upstream ->
  network P2 (forwarded_call ctx2) = Normal upstream ->
  differ_only_in_id_and_created P1 P2
    (fst (runPost P1 ctx1)) (fst (runPost P2 ctx2)) /\
  (is_POST ctx1 -> is_POST ctx2 ->
   differ_only_in_id_and_created P1 P2
     (fst (run P1 ctx1)) (fst (run P2 ctx2))).
Proof.
  intros Hnet1 Hnet2.
  pose proof (runPost_alike P1 P2 ctx1 ctx2 upstream Hnet1 Hnet2) as H.
  split; [exact H|].
  intros HP1 HP2. unfold run.
  rewrite (onRequest_POST_is_onRequestPost P1 ctx1 HP1).
  rewrite (onRequest_POST_is_onRequestPost P2 ctx2 HP2).
  exact H.
Qed.

Lemma runs_differ_witness :
  differ_only_in_id_and_created
    (streaming [] [interleaved_chunk])
    (another_execution (streaming [] [interleaved_chunk]))
    (fst (run (streaming [] [interleaved_chunk]) POST_request))
    (fst (run (another_execution (streaming [] [interleaved_chunk]))
              POST_request)) /\
  content_of_run (run (streaming [] [interleaved_chunk]) POST_request) =
  content_of_run (run (another_execution (streaming [] [interleaved_chunk]))
                      POST_request) /\
  Response.body (json_response
                   (envelope (randomUUID (streaming [] [])) 1762000000000
                             default_model (lit "Hello"))) <>
  Response.body (json_response
                   (envelope (randomUUID (another_execution (streaming [] [])))
                             1762000001500 default_model (lit "Hello"))).
Proof.
  split; [|split].
  - exact (proj2 (runs_differ_only_in_id_and_created
                    (streaming [] [interleaved_chunk])
                    (another_execution (streaming [] [interleaved_chunk]))
                    POST_request POST_request
                    {| Upstream.status := 200; Upstream.headers := [];
                       Upstream.body :=
                         Some {| chunks := [interleaved_chunk];
                                 failure := None |} |}
                    eq_refl eq_refl)
                 eq_refl eq_refl).
  - vm_compute. reflexivity.
  - vm_compute. discriminate.
Defined.

(** C2, as the claim states it, fails: when [fetch] rejects, the handler
    returns no response at all, with status 502 or any other; the error
    is thrown out of [onRequest]. *)
Lemma fetch_failure_counterexample :
  run unreachable POST_request =
    (Throw (TransportError "connection refused"),
     [forwarded_call POST_request]) /\
  (forall r, fst (run unreachable POST_request) <> Normal r).
Proof.
  split; [reflexivity|]. intros r. vm_compute. discriminate.
Qed.

(** C2, amended.  The handler has no [try] around [fetch] or around the
    reads: a transport error of [fetch], or of a read after any number of
    chunks, is thrown out of [onRequest] as it is.  No response is
    returned then, so the content aggregated before the failure is never
    returned as a success. *)
Theorem transport_failure_is_rethrown (P : Platform) (ctx : RequestContext) :
  is_POST ctx ->
  (forall e,
     network P (forwarded_call ctx) = Throw e ->
     run P ctx = (Throw e, [forwarded_call ctx])) /\
  (forall upstream body e,
     network P (forwarded_call ctx) = Normal upstream ->
     Upstream.body upstream =
       Some {| chunks := body; failure := Some e |} ->
     run P ctx = (Throw e, [forwarded_call ctx])).
Proof.
  intros HP. split.
  - intros e Hnet. rewrite (run_POST P ctx HP). now rewrite Hnet.
  - intros upstream body e Hnet Hbody. rewrite (run_POST P ctx HP).
    now rewrite Hnet, Hbody.
Qed.

Lemma transport_failure_witness :
  run unreachable POST_request =
    (Throw (TransportError "connection refused"),
     [forwarded_call POST_request]) /\
  run (dropping [whole_record]) POST_request =
    (Throw (TransportError "connection reset"),
     [forwarded_call POST_request]).
Proof.
  split.
  - exact (proj1 (transport_failure_is_rethrown unreachable POST_request
                    eq_refl)
                 (TransportError "connection refused") eq_refl).
  - exact (proj2 (transport_failure_is_rethrown (dropping [whole_record])
                    POST_request eq_refl)
                 {| Upstream.status := 200; Upstream.headers := [];
                    Upstream.body :=
                      Some {| chunks := [whole_record];
                              failure :=
                                Some (TransportError "connection reset") |} |}
                 [whole_record] (TransportError "connection reset")
                 eq_refl eq_refl).
Defined.

(** C1.  The handler decodes and splits every chunk on its own and keeps
    nothing from one read to the next.  A record delivered whole yields
    its content; the same bytes delivered in two reads, cut inside the
    JSON text, yield nothing: the first part does not parse and the
    second does not start with [data:]. *)
Theorem record_split_across_reads_is_lost :
  first_read ++ second_read = whole_record /\
  content_of_run (run (streaming [] [whole_record]) POST_request) =
    Some (JString (lit "Hello")) /\
  content_of_run (run (streaming [] [first_read; second_read]) POST_request) =
    Some (JString []).
Proof. repeat split; vm_compute; reflexivity. Qed.

(** X2.  A read boundary that falls on a line end is harmless: a chunk
    whose text is [a], a line feed and [b] gives the same content as two
    chunks with the texts [a] followed by a line feed, and [b]. *)
Theorem chunking_at_line_ends_is_harmless
    (before after : list bytes) (whole first second : bytes)
    (a b : jsstring) :
  TextDecoder.decode whole = a ++ LF :: b ->
  TextDecoder.decode first = a ++ [LF] ->
  TextDecoder.decode second = b ->
  aggregate (before ++ whole :: after) =
  aggregate (before ++ first :: second :: after).
Proof.
  intros Hwhole Hfirst Hsecond.
  rewrite !aggregate_app, !aggregate_cons. f_equal.
  unfold lines_of. rewrite Hwhole, Hfirst, Hsecond, !split_app.
  rewrite !map_app, !concat_app. cbn [map List.concat Str.split].
  rewrite (line_fragment_not_data []) by reflexivity.
  now rewrite !app_nil_r, <- app_assoc.
Qed.

Lemma chunking_at_line_ends_witness :
  aggregate [quoted_bytes record_Hel ++ newline ++ quoted_bytes record_lo] =
  aggregate [quoted_bytes record_Hel ++ newline; quoted_bytes record_lo].
Proof.
  apply (chunking_at_line_ends_is_harmless [] []
           (quoted_bytes record_Hel ++ newline ++ quoted_bytes record_lo)
           (quoted_bytes record_Hel ++ newline) (quoted_bytes record_lo)
           (quoted record_Hel) (quoted record_lo));
    vm_compute; reflexivity.
Defined.

(** * Further properties of the handler *)

(** ** White space around a payload *)

Lemma trimStart_blank_app (w y : jsstring) :
  blank w -> Str.trimStart (w ++ y) = Str.trimStart y.
Proof.
  induction 1 as [|c w Hc _ IH]; simpl; [reflexivity|].
  now rewrite Hc.
Qed.

Lemma trimStart_blank (w : jsstring) : blank w -> Str.trimStart w = [].
Proof.
  intros H. rewrite <- (app_nil_r w). now rewrite trimStart_blank_app.
Qed.

Lemma trimStart_nil_blank (s : jsstring) : Str.trimStart s = [] -> blank s.
Proof.
  induction s as [|c s IH]; simpl; [constructor|].
  destruct (Str.is_whitespace c) eqn:Hc; [|discriminate].
  intros H. constructor; [exact Hc|now apply IH].
Qed.

Lemma trimStart_app_keeps (s t : jsstring) :
  Str.trimStart s <> [] -> Str.trimStart (s ++ t) = Str.trimStart s ++ t.
Proof.
  induction s as [|c s IH]; simpl; [congruence|].
  destruct (Str.is_whitespace c); [exact IH|reflexivity].
Qed.

Lemma blank_app (v w : jsstring) : blank v -> blank w -> blank (v ++ w).
Proof. intros Hv Hw. apply Forall_app. now split. Qed.

Lemma blank_rev (w : jsstring) : blank w -> blank (rev w).
Proof. apply Forall_rev. Qed.

Lemma trimEnd_app_blank (s w : jsstring) :
  blank w -> Str.trimEnd (s ++ w) = Str.trimEnd s.
Proof.
  intros Hw. unfold Str.trimEnd. rewrite rev_app_distr.
  now rewrite trimStart_blank_app by now apply blank_rev.
Qed.

(** [trim] does not see white space added at either end. *)
Lemma trim_around (w1 s w2 : jsstring) :
  blank w1 -> blank w2 -> Str.trim (w1 ++ s ++ w2) = Str.trim s.
Proof.
  intros H1 H2. unfold Str.trim. rewrite trimStart_blank_app by exact H1.
  destruct (Str.trimStart s) as [|c r] eqn:Hs.
  - rewrite trimStart_blank; [reflexivity|].
    apply blank_app; [now apply trimStart_nil_blank|exact H2].
  - rewrite trimStart_app_keeps by congruence.
    rewrite Hs. now apply trimEnd_app_blank.
Qed.

(** What a [data:] line adds depends on the line through its payload
    only. *)
Lemma data_line_by_payload (l1 l2 : jsstring) :
  Str.startsWith (lit "data:") l1 = true ->
  Str.startsWith (lit "data:") l2 = true ->
  payload l1 = payload l2 ->
  forall content, process_line content l1 = process_line content l2.
Proof.
  intros H1 H2 Hp content. unfold process_line, try_block.
  fold (payload l1) (payload l2). now rewrite H1, H2, Hp.
Qed.

(** X3.  White space between [data:] and the payload, and after the
    payload, does not matter: the line adds what the bare line adds.  A
    stream with CRLF line ends, or with or without the space after the
    colon, is aggregated alike. *)
Theorem payload_whitespace_is_ignored (w1 p w2 content : jsstring) :
  blank w1 ->
  blank w2 ->
  process_line content (lit "data:" ++ w1 ++ p ++ w2) =
  process_line content (lit "data:" ++ p).
Proof.
  intros H1 H2. apply data_line_by_payload; try reflexivity.
  unfold payload, Str.slice.
  change (skipn 5 (lit "data:" ++ w1 ++ p ++ w2)) with (w1 ++ p ++ w2).
  change (skipn 5 (lit "data:" ++ p)) with p.
  now apply trim_around.
Qed.

Lemma payload_whitespace_witness :
  process_line (lit "Hel")
    (lit "data:" ++ lit " " ++
     quoted "{'choices':[{'delta':{'content':'lo'}}]}" ++ [13%N]) =
  lit "Hello".
Proof.
  rewrite (payload_whitespace_is_ignored (lit " ")
             (quoted "{'choices':[{'delta':{'content':'lo'}}]}") [13%N]
             (lit "Hel")).
  - vm_compute. reflexivity.
  - repeat constructor.
  - repeat constructor.
Defined.

(** ** The forwarded call and the upstream response *)

(** X4.  On a POST the handler calls [fetch] exactly once, whatever
    happens afterwards (the upstream answers, has no body, or a read
    fails): the call goes to the fixed upstream URL with the method POST
    and carries the inbound headers and body unchanged.  On any other
    method it makes no call. *)
Theorem one_passthrough_call (P : Platform) (ctx : RequestContext) :
  snd (run P ctx) =
  if jsstring_eqb (Request.method (请求 ctx)) (lit "POST") then
    [{| FetchCall.url := lit "https://ai.enencloud.top/v1/chat/completions";
        FetchCall.method := lit "POST";
        FetchCall.headers := Request.headers (请求 ctx);
        FetchCall.body := Request.body (请求 ctx) |}]
  else [].
Proof.
  destruct (jsstring_eqb (Request.method (请求 ctx)) (lit "POST")) eqn:Hm.
  - apply jsstring_eqb_eq in Hm. rewrite (run_POST P ctx Hm).
    destruct (network P (forwarded_call ctx)) as [upstream|e]; [|reflexivity].
    destruct (Upstream.body upstream) as [reader|]; [|reflexivity].
    destruct (failure reader); reflexivity.
  - apply jsstring_eqb_neq in Hm. now rewrite (run_not_POST P ctx Hm).
Qed.

(** X5.  The handler never looks at the upstream status: with any other
    status in place of the upstream's own, it returns or throws the
    same.  An upstream error status, such as 401 or 500 with an error
    document as its body, is therefore answered with status 200. *)
Theorem upstream_status_is_ignored (status : Z) (P : Platform)
    (ctx : RequestContext) :
  run (with_upstream_status status P) ctx = run P ctx.
Proof.
  destruct (jsstring_eqb (Request.method (请求 ctx)) (lit "POST")) eqn:Hm.
  - apply jsstring_eqb_eq in Hm.
    rewrite (run_POST _ ctx Hm), (run_POST P ctx Hm). simpl.
    destruct (network P (forwarded_call ctx)) as [upstream|e]; reflexivity.
  - apply jsstring_eqb_neq in Hm.
    now rewrite (run_not_POST _ ctx Hm), (run_not_POST P ctx Hm).
Qed.

(** X6.  When the upstream response has no body ([upstream.body] is
    [null], as for a 204), [getReader] is called on [null]: the handler
    throws a TypeError after its one call of [fetch] and returns no
    response. *)
Theorem null_body_throws_TypeError (P : Platform) (ctx : RequestContext)
    (upstream : Upstream.t) :
  is_POST ctx ->
  network P (forwarded_call ctx) = Normal upstream ->
  Upstream.body upstream = None ->
  run P ctx = (Throw TypeError, [forwarded_call ctx]).
Proof.
  intros HP Hnet Hbody. rewrite (run_POST P ctx HP). now rewrite Hnet, Hbody.
Qed.

Lemma null_body_witness :
  run bodiless POST_request = (Throw TypeError, [forwarded_call POST_request]).
Proof.
  exact (null_body_throws_TypeError bodiless POST_request
           {| Upstream.status := 204; Upstream.headers := [];
              Upstream.body := None |}
           eq_refl eq_refl eq_refl).
Defined.

(** * The chat page *)

(** ** Its read loop *)

Lemma replace_last_snoc (base : list Page.Message) (old m : Page.Message) :
  Page.replace_last (base ++ [old]) m = base ++ [m].
Proof.
  unfold Page.replace_last.
  destruct (base ++ [old]) as [|x xs] eqn:H.
  - now destruct base.
  - now rewrite <- H, removelast_last.
Qed.

(** The loop keeps the last message equal to what was accumulated, and
    what it accumulates does not depend on the messages or the log. *)
Lemma page_line_invariant (loop : Page.Loop) (line : jsstring)
    (base : list Page.Message) :
  Page.shown loop =
    base ++ [{| Page.role := Page.assistant;
                Page.content := Page.accumulatedContent loop |}] ->
  Page.shown (Page.process_line loop line) =
    base ++ [{| Page.role := Page.assistant;
                Page.content :=
                  Page.accumulatedContent (Page.process_line loop line) |}].
Proof.
  intros H. unfold Page.process_line.
  destruct (negb (Nat.eqb (List.length (Str.trim line)) 0) &&
            Str.startsWith (lit "data: ") line); [|exact H].
  destruct (Page.try_line (Page.accumulatedContent loop) line); simpl;
    [|exact H].
  rewrite H. apply replace_last_snoc.
Qed.

Lemma page_line_accumulated (loop1 loop2 : Page.Loop) (line : jsstring) :
  Page.accumulatedContent loop1 = Page.accumulatedContent loop2 ->
  Page.accumulatedContent (Page.process_line loop1 line) =
  Page.accumulatedContent (Page.process_line loop2 line).
Proof.
  intros H. unfold Page.process_line.
  destruct (negb (Nat.eqb (List.length (Str.trim line)) 0) &&
            Str.startsWith (lit "data: ") line); [|exact H].
  rewrite H.
  destruct (Page.try_line (Page.accumulatedContent loop2) line); reflexivity.
Qed.

Lemma page_lines_invariant (lines : list jsstring) (loop : Page.Loop)
    (base : list Page.Message) :
  Page.shown loop =
    base ++ [{| Page.role := Page.assistant;
                Page.content := Page.accumulatedContent loop |}] ->
  Page.shown (fold_left Page.process_line lines loop) =
    base ++ [{| Page.role := Page.assistant;
                Page.content :=
                  Page.accumulatedContent
                    (fold_left Page.process_line lines loop) |}].
Proof.
  revert loop; induction lines as [|l ls IH]; intros loop H; simpl;
    [exact H|].
  apply IH. now apply page_line_invariant.
Qed.

Lemma page_lines_accumulated (lines : list jsstring)
    (loop1 loop2 : Page.Loop) :
  Page.accumulatedContent loop1 = Page.accumulatedContent loop2 ->
  Page.accumulatedContent (fold_left Page.process_line lines loop1) =
  Page.accumulatedContent (fold_left Page.process_line lines loop2).
Proof.
  revert loop1 loop2; induction lines as [|l ls IH]; intros loop1 loop2 H;
    simpl; [exact H|].
  apply IH. now apply page_line_accumulated.
Qed.

Lemma page_chunks_invariant (chunks : list bytes) (loop : Page.Loop)
    (base : list Page.Message) :
  Page.shown loop =
    base ++ [{| Page.role := Page.assistant;
                Page.content := Page.accumulatedContent loop |}] ->
  Page.shown (fold_left Page.process_chunk chunks loop) =
    base ++ [{| Page.role := Page.assistant;
                Page.content :=
                  Page.accumulatedContent
                    (fold_left Page.process_chunk chunks loop) |}].
Proof.
  revert loop; induction chunks as [|c cs IH]; intros loop H; simpl;
    [exact H|].
  apply IH. unfold Page.process_chunk. now apply page_lines_invariant.
Qed.

Lemma page_chunks_accumulated (chunks : list bytes)
    (loop1 loop2 : Page.Loop) :
  Page.accumulatedContent loop1 = Page.accumulatedContent loop2 ->
  Page.accumulatedContent (fold_left Page.process_chunk chunks loop1) =
  Page.accumulatedContent (fold_left Page.process_chunk chunks loop2).
Proof.
  revert loop1 loop2; induction chunks as [|c cs IH]; intros loop1 loop2 H;
    simpl; [exact H|].
  apply IH. unfold Page.process_chunk. now apply page_lines_accumulated.
Qed.

(** The messages when the reads of a response end: the ones before the
    loop with the assistant's placeholder replaced by what was
    accumulated. *)
Lemma page_loop_shown (chunks : list bytes) (base : list Page.Message) :
  Page.shown
    (fold_left Page.process_chunk chunks
       {| Page.accumulatedContent := [];
          Page.shown :=
            base ++ [{| Page.role := Page.assistant; Page.content := [] |}];
          Page.logged := [] |}) =
  base ++ [{| Page.role := Page.assistant;
              Page.content := Page.accumulate chunks |}].
Proof.
  rewrite (page_chunks_invariant chunks _ base) by reflexivity.
  unfold Page.accumulate. do 3 f_equal.
  now apply page_chunks_accumulated.
Qed.

(** The log of the loop holds no request. *)
Lemma page_line_logged (loop : Page.Loop) (line : jsstring) :
  Page.requests (Page.logged loop) = [] ->
  Page.requests (Page.logged (Page.process_line loop line)) = [].
Proof.
  intros H. unfold Page.process_line.
  destruct (negb (Nat.eqb (List.length (Str.trim line)) 0) &&
            Str.startsWith (lit "data: ") line); [|exact H].
  destruct (Page.try_line (Page.accumulatedContent loop) line); simpl;
    [exact H|].
  unfold Page.requests in *. rewrite flat_map_app, H. reflexivity.
Qed.

Lemma page_chunks_logged (chunks : list bytes) (loop : Page.Loop) :
  Page.requests (Page.logged loop) = [] ->
  Page.requests (Page.logged (fold_left Page.process_chunk chunks loop)) = [].
Proof.
  revert loop; induction chunks as [|c cs IH]; intros loop H; simpl;
    [exact H|].
  apply IH. unfold Page.process_chunk.
  generalize (Str.split LF (TextDecoder.decode c)). intros lines.
  revert loop H; induction lines as [|l ls IHl]; intros loop H; simpl;
    [exact H|].
  apply IHl. now apply page_line_logged.
Qed.

(** ** [handleSubmit] *)

Lemma handleSubmit_started (env : Page.Env) (st : Page.State) :
  submits st ->
  Page.handleSubmit env st =
  (let '(st2, effects, thrown) :=
     Page.after_fetch (Page.respond env (posted env st)) (started st) in
   let '(st3, caught) :=
     match thrown with
     | Some err => Page.catch_block err st2
     | None => (st2, [])
     end in
   (Page.finally_block st3, Page.Fetch (posted env st) :: effects ++ caught)).
Proof.
  intros (Hin & Hl & Hstr). unfold Page.handleSubmit.
  rewrite Hin, Hl, Hstr. reflexivity.
Qed.

(** The setters are evaluated innermost first, on a state given by its
    fields, so that every intermediate state stays one record. *)
Ltac page_unfold :=
  repeat match goal with st : Page.State |- _ => destruct st end;
  cbv [settled started Page.finally_block Page.setAbortController
       Page.setIsStreaming Page.setIsLoading Page.setMessages Page.setInput
       fst snd Page.messages Page.input Page.isLoading Page.isStreaming
       Page.selectedModel Page.showModelSelector Page.abortController].

(** X7.  When the answer streams in to its end, [handleSubmit] leaves the
    earlier messages as they were, followed by the user's message (the
    input, trimmed) and one message of the assistant whose content is
    everything accumulated from the chunks; the input is cleared, both
    flags are down again, and exactly one request was sent. *)
Theorem page_shows_streamed_answer (env : Page.Env) (st : Page.State)
    (response : Page.Fetched) (body : Page.Body) :
  submits st ->
  Page.respond env (posted env st) = inr response ->
  Page.ok response = true ->
  Page.stream response = Some body ->
  Page.ending body = None ->
  fst (Page.handleSubmit env st) =
    settled st (Page.accumulate (Page.reads body)) /\
  Page.requests (snd (Page.handleSubmit env st)) = [posted env st].
Proof.
  intros Hs Hanswer Hok Hstream Hend.
  rewrite (handleSubmit_started env st Hs), Hanswer.
  unfold Page.after_fetch. rewrite Hok, Hstream, Hend. simpl.
  split.
  - rewrite (page_loop_shown (Page.reads body)
               (Page.messages st ++
                [{| Page.role := Page.user;
                    Page.content := Str.trim (Page.input st) |}])).
    page_unfold. now rewrite <- app_assoc.
  - rewrite app_nil_r. f_equal. now apply page_chunks_logged.
Qed.

Lemma page_shows_streamed_witness :
  Page.messages
    (fst (Page.handleSubmit (page_env (sse_answer None)) asking)) =
  [{| Page.role := Page.user; Page.content := lit "hi" |};
   {| Page.role := Page.assistant; Page.content := lit "Hello" |}].
Proof.
  destruct (page_shows_streamed_answer (page_env (sse_answer None)) asking
              {| Page.status := 200;
                 Page.stream :=
                   Some {| Page.reads := [interleaved_chunk];
                           Page.ending := None |} |}
              {| Page.reads := [interleaved_chunk]; Page.ending := None |})
    as [H _].
  - repeat split.
  - reflexivity.
  - reflexivity.
  - reflexivity.
  - reflexivity.
  - rewrite H. vm_compute. reflexivity.
Defined.

(** X8.  When the request fails other than by an abort ([fetch] rejects,
    the response is not ok, it has no body, or a read rejects after any
    number of chunks), the assistant's message is replaced by the
    apology: what had streamed in is discarded.  The earlier messages
    and the user's message stay, and the flags are down again. *)
Theorem page_failure_shows_apology (env : Page.Env) (st : Page.State)
    (err : Page.error) :
  submits st ->
  fails_with (Page.respond env (posted env st)) err ->
  Page.is_abort err = false ->
  fst (Page.handleSubmit env st) = settled st Page.apology /\
  snd (Page.handleSubmit env st) =
    Page.Fetch (posted env st) ::
    match Page.respond env (posted env st) with
    | inr response =>
        if Page.ok response then
          match Page.stream response with
          | Some body =>
              Page.logged
                (fold_left Page.process_chunk (Page.reads body)
                   {| Page.accumulatedContent := [];
                      Page.shown := Page.messages (started st);
                      Page.logged := [] |})
          | None => []
          end
        else []
    | inl _ => []
    end ++ [Page.LogError err].
Proof.
  intros Hs Hfail Hna.
  rewrite (handleSubmit_started env st Hs).
  assert (Hbase : forall shown0,
            Page.but_last
              ((Page.messages st ++
                [{| Page.role := Page.user;
                    Page.content := Str.trim (Page.input st) |}]) ++
               [shown0]) ++
            [{| Page.role := Page.assistant; Page.content := Page.apology |}] =
            Page.messages (settled st Page.apology)).
  { intros shown0. unfold Page.but_last. rewrite removelast_last.
    unfold settled. simpl. now rewrite <- app_assoc. }
  inversion Hfail as [err' Heq|response Hok Heq|response Hok Hstream Heq|
                      response body err' Hok Hstream Hend Heq]; subst.
  - unfold Page.after_fetch, Page.catch_block. rewrite Hna. simpl.
    split; [|reflexivity].
    page_unfold. f_equal.
    apply (Hbase {| Page.role := Page.assistant; Page.content := [] |}).
  - unfold Page.after_fetch, Page.catch_block. rewrite Hok. simpl.
    split; [|reflexivity].
    page_unfold. f_equal.
    apply (Hbase {| Page.role := Page.assistant; Page.content := [] |}).
  - unfold Page.after_fetch, Page.catch_block. rewrite Hok, Hstream. simpl.
    split; [|reflexivity].
    page_unfold. f_equal.
    apply (Hbase {| Page.role := Page.assistant; Page.content := [] |}).
  - unfold Page.after_fetch, Page.catch_block.
    rewrite Hok, Hstream, Hend. simpl. rewrite Hna.
    split; [|reflexivity].
    rewrite (page_loop_shown (Page.reads body)
               (Page.messages st ++
                [{| Page.role := Page.user;
                    Page.content := Str.trim (Page.input st) |}])).
    page_unfold. f_equal. apply Hbase.
Qed.

Lemma page_failure_witness :
  Page.messages
    (fst (Page.handleSubmit
            (page_env (sse_answer (Some (Page.Thrown (TransportError "reset")))))
            asking)) =
  [{| Page.role := Page.user; Page.content := lit "hi" |};
   {| Page.role := Page.assistant; Page.content := Page.apology |}].
Proof.
  destruct (page_failure_shows_apology
              (page_env (sse_answer (Some (Page.Thrown (TransportError "reset")))))
              asking (Page.Thrown (TransportError "reset"))) as [H _].
  - repeat split.
  - apply (read_rejected
             {| Page.status := 200;
                Page.stream :=
                  Some {| Page.reads := [interleaved_chunk];
                          Page.ending :=
                            Some (Page.Thrown (TransportError "reset")) |} |}
             {| Page.reads := [interleaved_chunk];
                Page.ending := Some (Page.Thrown (TransportError "reset")) |});
      reflexivity.
  - reflexivity.
  - rewrite H. vm_compute. reflexivity.
Defined.

(** X9.  When the request is aborted, nothing is replaced: the
    assistant's message keeps what had streamed in before the abort (it
    is empty when [fetch] itself was aborted), and the flags are down
    again. *)
Theorem page_abort_keeps_streamed (env : Page.Env) (st : Page.State) :
  submits st ->
  fails_with (Page.respond env (posted env st)) Page.AbortError ->
  fst (Page.handleSubmit env st) =
    settled st (streamed (Page.respond env (posted env st))) /\
  In Page.LogAborted (snd (Page.handleSubmit env st)).
Proof.
  intros Hs Hfail.
  rewrite (handleSubmit_started env st Hs).
  inversion Hfail as [err' Heq|response Hok Heq|response Hok Hstream Heq|
                      response body err' Hok Hstream Hend Heq]; subst.
  - unfold Page.after_fetch, Page.catch_block. simpl. split.
    + page_unfold. now rewrite <- app_assoc.
    + right. now left.
  - unfold Page.after_fetch, Page.catch_block, streamed.
    rewrite Hok, Hstream, Hend. simpl. split.
    + rewrite (page_loop_shown (Page.reads body)
                 (Page.messages st ++
                  [{| Page.role := Page.user;
                      Page.content := Str.trim (Page.input st) |}])).
      page_unfold. now rewrite <- app_assoc.
    + right. apply in_or_app. right. now left.
Qed.

Lemma page_abort_witness :
  Page.messages
    (fst (Page.handleSubmit (page_env (sse_answer (Some Page.AbortError)))
            asking)) =
  [{| Page.role := Page.user; Page.content := lit "hi" |};
   {| Page.role := Page.assistant; Page.content := lit "Hello" |}].
Proof.
  destruct (page_abort_keeps_streamed
              (page_env (sse_answer (Some Page.AbortError))) asking) as [H _].
  - repeat split.
  - apply (read_rejected
             {| Page.status := 200;
                Page.stream :=
                  Some {| Page.reads := [interleaved_chunk];
                          Page.ending := Some Page.AbortError |} |}
             {| Page.reads := [interleaved_chunk];
                Page.ending := Some Page.AbortError |});
      reflexivity.
  - rewrite H. vm_compute. reflexivity.
Defined.

(** ** The page and the handler on the same line *)

Lemma trimStart_keeps_last (y : jsstring) (c : code_unit) :
  Str.is_whitespace c = false -> Str.trimStart (y ++ [c]) <> [].
Proof.
  intros Hc. induction y as [|d y IH]; simpl.
  - rewrite Hc. discriminate.
  - destruct (Str.is_whitespace d); [exact IH|discriminate].
Qed.

(** A line that starts with a character that is no white space is not
    blank. *)
Lemma trim_not_empty (c : code_unit) (s : jsstring) :
  Str.is_whitespace c = false ->
  Nat.eqb (List.length (Str.trim (c :: s))) 0 = false.
Proof.
  intros Hc. unfold Str.trim. simpl. rewrite Hc.
  unfold Str.trimEnd. simpl.
  pose proof (trimStart_keeps_last (rev s) c Hc) as H.
  destruct (Str.trimStart (rev s ++ [c])) as [|x xs]; [congruence|].
  rewrite length_rev. reflexivity.
Qed.

(** On a record line [data: ] followed by a payload that has no white
    space around it, the page and the handler do the same: both parse
    the payload, and both append the same text to what they have
    accumulated (the string at [choices[0].delta.content], or the string
    conversion of a truthy value there), or both leave it as it is. *)
Lemma page_record_line (accumulated p : jsstring)
    (shown : list Page.Message) (logged : list Page.effect) :
  Str.trim p = p ->
  Page.accumulatedContent
    (Page.process_line
       {| Page.accumulatedContent := accumulated;
          Page.shown := shown;
          Page.logged := logged |}
       (lit "data: " ++ p)) =
  process_line accumulated (lit "data: " ++ p).
Proof.
  intros Htrim.
  assert (Hpayload : payload (lit "data: " ++ p) = p).
  { unfold payload, Str.slice.
    change (skipn 5 (lit "data: " ++ p)) with ([32%N] ++ p).
    rewrite <- (app_nil_r p) at 1.
    rewrite trim_around; [exact Htrim|repeat constructor|constructor]. }
  unfold Page.process_line.
  change (lit "data: " ++ p) with (100%N :: (lit "ata: " ++ p)) at 1.
  rewrite trim_not_empty by reflexivity.
  change (Str.startsWith (lit "data: ") (lit "data: " ++ p))
    with (Str.startsWith [] p).
  simpl andb. cbv iota.
  unfold Page.try_line, Str.slice.
  change (skipn 6 (lit "data: " ++ p)) with p. simpl Page.accumulatedContent.
  destruct (JSON.parse p) as [data|e] eqn:Hparse; cbn [and_then].
  - rewrite (process_data_line accumulated (lit "data: " ++ p) data);
      [|reflexivity|now rewrite Hpayload].
    unfold Page.token_of.
    destruct (delta_content data) as [[v|]|e]; cbn [and_then].
    + destruct (ToBoolean (Some v)).
      * destruct (ToString v); reflexivity.
      * simpl. now rewrite app_nil_r.
    + simpl. now rewrite app_nil_r.
    + reflexivity.
  - simpl. symmetry.
    apply (process_unparsed_line accumulated (lit "data: " ++ p) e).
    now rewrite Hpayload.
Qed.

Lemma startsWith_skipn (p s : jsstring) :
  Str.startsWith p s = true -> s = p ++ skipn (List.length p) s.
Proof.
  revert s; induction p as [|x p IH]; intros s; simpl; [reflexivity|].
  destruct s as [|c s]; [discriminate|].
  intros H. apply andb_prop in H as [Hx H]. apply N.eqb_eq in Hx.
  subst c. f_equal. now apply IH.
Qed.

Lemma page_plain_line (loop : Page.Loop) (line : jsstring) :
  plain_line line = true ->
  Page.accumulatedContent (Page.process_line loop line) =
  process_line (Page.accumulatedContent loop) line.
Proof.
  unfold plain_line. intros H.
  destruct (Str.startsWith (lit "data: ") line) eqn:Hpage.
  - assert (Hdata : Str.startsWith (lit "data:") line = true).
    { rewrite (startsWith_skipn _ _ Hpage). reflexivity. }
    rewrite Hdata in H. simpl in H. apply jsstring_eqb_eq in H.
    rewrite (startsWith_skipn _ _ Hpage).
    destruct loop as [accumulated shown logged].
    now apply page_record_line.
  - rewrite andb_false_l, orb_false_r in H. apply negb_true_iff in H.
    unfold Page.process_line, process_line.
    now rewrite Hpage, H, andb_false_r.
Qed.

Lemma page_plain_lines (lines : list jsstring) (loop : Page.Loop) :
  Forall (fun l => plain_line l = true) lines ->
  Page.accumulatedContent (fold_left Page.process_line lines loop) =
  fold_left process_line lines (Page.accumulatedContent loop).
Proof.
  intros H. revert loop. induction H as [|l ls Hl _ IH]; intros loop; simpl;
    [reflexivity|].
  now rewrite IH, page_plain_line.
Qed.

(** X10.  On a stream whose [data:] lines all have the form [data: ]
    with its space, followed by a payload without white space around it,
    the page and the handler accumulate the same content: both append,
    line by line, the same text (the string at
    [choices[0].delta.content], or the string conversion of a truthy
    value there) or nothing. *)
Theorem page_and_handler_agree_on_records (chunks : list bytes) :
  Forall (fun value => Forall (fun l => plain_line l = true) (lines_of value))
         chunks ->
  Page.accumulate chunks = aggregate chunks.
Proof.
  intros H. unfold Page.accumulate, aggregate.
  change (@nil code_unit)
    with (Page.accumulatedContent
            {| Page.accumulatedContent := [];
               Page.shown := [];
               Page.logged := [] |}) at 2.
  generalize {| Page.accumulatedContent := [];
                Page.shown := [];
                Page.logged := [] |}.
  induction H as [|value rest Hvalue _ IH]; intros loop; simpl;
    [reflexivity|].
  rewrite IH. f_equal. unfold Page.process_chunk, process_chunk.
  now apply page_plain_lines.
Qed.

Lemma page_and_handler_agree_witness :
  Page.accumulate [interleaved_chunk] = aggregate [interleaved_chunk] /\
  aggregate [interleaved_chunk] = lit "Hello".
Proof.
  split; [|vm_compute; reflexivity].
  apply (page_and_handler_agree_on_records [interleaved_chunk]).
  constructor; [|constructor].
  vm_compute. repeat constructor.
Defined.

(** ** The handler's response read by the page *)

Lemma single_line_app (a b : jsstring) :
  single_line a -> single_line b -> single_line (a ++ b).
Proof. intros Ha Hb. apply Forall_app. now split. Qed.

Lemma single_line_digits (d : Decimal.uint) :
  single_line (lit (NilZero.string_of_uint d)).
Proof.
  assert (H : forall u, single_line (lit (NilEmpty.string_of_uint u))).
  { induction u; simpl; constructor; try discriminate; assumption. }
  destruct d; try apply H. repeat constructor. discriminate.
Qed.

Lemma single_line_zeros (count : Z) : single_line (Double.zeros count).
Proof.
  unfold Double.zeros. induction (Z.to_nat count); simpl; constructor;
    [discriminate|assumption].
Qed.

Lemma single_line_firstn (n : nat) (s : jsstring) :
  single_line s -> single_line (firstn n s).
Proof.
  intros H. revert n.
  induction H as [|c s Hc Hs IH]; intros [|n]; simpl; try constructor;
    [exact Hc|apply IH].
Qed.

Lemma single_line_skipn (n : nat) (s : jsstring) :
  single_line s -> single_line (skipn n s).
Proof.
  intros H. revert n.
  induction H as [|c s Hc Hs IH]; intros [|n]; simpl; try constructor;
    [exact Hc|exact Hs|apply IH].
Qed.

Ltac single_line_literal := repeat constructor; discriminate.

Lemma single_line_format (s n : Z) : single_line (Double.format s n).
Proof.
  unfold Double.format, Double.decimal_digits.
  pose proof (single_line_digits (N.to_uint (Z.to_N s))) as Hds.
  pose proof (single_line_digits (N.to_uint (Z.to_N (Z.abs (n - 1))))) as He.
  set (ds := lit (NilZero.string_of_uint (N.to_uint (Z.to_N s)))) in *.
  set (es := lit (NilZero.string_of_uint (N.to_uint (Z.to_N (Z.abs (n - 1))))))
    in *.
  destruct ((Z.of_nat (List.length ds) <=? n)%Z && (n <=? 21)%Z).
  { apply single_line_app; [exact Hds|apply single_line_zeros]. }
  destruct ((0 <? n)%Z && (n <=? 21)%Z).
  { apply single_line_app; [now apply single_line_firstn|].
    apply single_line_app; [single_line_literal|now apply single_line_skipn]. }
  destruct ((-6 <? n)%Z && (n <=? 0)%Z).
  { apply single_line_app; [single_line_literal|].
    apply single_line_app; [apply single_line_zeros|exact Hds]. }
  assert (Hx : single_line
                 ((if (0 <=? n - 1)%Z then lit "+" else lit "-") ++ es)).
  { apply single_line_app; [|exact He].
    destruct (0 <=? n - 1)%Z; single_line_literal. }
  destruct Hds as [|d more Hd Hmore]; [constructor|].
  destruct more as [|d' more'].
  - apply single_line_app; [now constructor|].
    apply single_line_app; [single_line_literal|exact Hx].
  - apply single_line_app; [now repeat constructor|].
    apply single_line_app; [single_line_literal|].
    apply single_line_app; [exact Hmore|].
    apply single_line_app; [single_line_literal|exact Hx].
Qed.

Lemma single_line_toString (x : spec_float) : single_line (Double.toString x).
Proof.
  destruct x as [sg|sg| |sg m e]; unfold Double.toString.
  - single_line_literal.
  - destruct sg; single_line_literal.
  - single_line_literal.
  - cbv zeta.
    match goal with
    | |- context [Double.shortest ?f ?m' ?e' ?a ?b ?n ?k] =>
        destruct (Double.shortest f m' e' a b n k) as [s n']
    end.
    apply single_line_app; [destruct sg; [single_line_literal|constructor]|].
    apply single_line_format.
Qed.

Lemma hex_digit_not_LF (n : N) : JSON.hex_digit n <> LF.
Proof.
  unfold JSON.hex_digit, LF. destruct (N.ltb n 10); lia.
Qed.

Lemma single_line_unicode_escape (c : code_unit) :
  single_line (JSON.unicode_escape c).
Proof.
  unfold JSON.unicode_escape.
  repeat constructor; try discriminate; apply hex_digit_not_LF.
Qed.

Lemma single_line_quote_chars (s : jsstring) : single_line (JSON.quote_chars s).
Proof.
  remember (List.length s) as n eqn:Hn.
  assert (Hle : List.length s <= n) by lia. clear Hn.
  revert s Hle. induction n as [|n IH]; intros s Hle.
  { destruct s; simpl in *; [constructor|lia]. }
  destruct s as [|c s1]; [constructor|]. simpl in Hle.
  assert (H1 : single_line (JSON.quote_chars s1)) by (apply IH; lia).
  cbn [JSON.quote_chars].
  destruct (N.eqb c 8);
    [apply single_line_app; [single_line_literal|exact H1]|].
  destruct (N.eqb c 9);
    [apply single_line_app; [single_line_literal|exact H1]|].
  destruct (N.eqb c 10) eqn:H10;
    [apply single_line_app; [single_line_literal|exact H1]|].
  destruct (N.eqb c 12);
    [apply single_line_app; [single_line_literal|exact H1]|].
  destruct (N.eqb c 13);
    [apply single_line_app; [single_line_literal|exact H1]|].
  destruct (N.eqb c 34);
    [apply single_line_app; [single_line_literal|exact H1]|].
  destruct (N.eqb c 92);
    [apply single_line_app; [single_line_literal|exact H1]|].
  apply N.eqb_neq in H10.
  destruct (N.ltb c 32);
    [apply single_line_app; [apply single_line_unicode_escape|exact H1]|].
  destruct (JSON.is_high_surrogate c).
  - destruct s1 as [|d s2]; [apply single_line_unicode_escape|].
    destruct (JSON.is_low_surrogate d) eqn:Hd.
    + constructor; [exact H10|]. constructor.
      * unfold JSON.is_low_surrogate in Hd. apply andb_prop in Hd as [Hd _].
        apply N.leb_le in Hd. unfold LF. lia.
      * apply IH. simpl in Hle. lia.
    + apply single_line_app; [apply single_line_unicode_escape|exact H1].
  - destruct (JSON.is_low_surrogate c).
    + apply single_line_app; [apply single_line_unicode_escape|exact H1].
    + constructor; [exact H10|exact H1].
Qed.

Lemma single_line_quote (s : jsstring) : single_line (JSON.quote s).
Proof.
  unfold JSON.quote. apply single_line_app; [single_line_literal|].
  apply single_line_app; [apply single_line_quote_chars|single_line_literal].
Qed.

Lemma single_line_join (sep : jsstring) (pieces : list jsstring) :
  single_line sep -> Forall single_line pieces ->
  single_line (Str.join sep pieces).
Proof.
  intros Hsep H. induction H as [|p ps Hp Hps IH]; [constructor|].
  destruct ps as [|q qs]; [exact Hp|].
  change (Str.join sep (p :: q :: qs)) with (p ++ sep ++ Str.join sep (q :: qs)).
  apply single_line_app; [exact Hp|]. now apply single_line_app.
Qed.

(** [JSON.stringify] writes its document on one line: line feeds inside
    strings are written as escapes. *)
Lemma single_line_stringify (v : value) : single_line (JSON.stringify v).
Proof.
  induction v as [|b|x|s|elements IH|members IH] using value_induction.
  - single_line_literal.
  - destruct b; single_line_literal.
  - simpl. destruct (Double.is_finite x);
      [apply single_line_toString|single_line_literal].
  - apply single_line_quote.
  - cbn [JSON.stringify].
    apply single_line_app; [single_line_literal|].
    apply single_line_app; [|single_line_literal].
    apply single_line_join; [single_line_literal|].
    induction IH; simpl; constructor; assumption.
  - cbn [JSON.stringify].
    apply single_line_app; [single_line_literal|].
    apply single_line_app; [|single_line_literal].
    apply single_line_join; [single_line_literal|].
    induction IH as [|kv rest Hkv _ IHrest]; cbn [map]; constructor;
      [|exact IHrest].
    apply single_line_app; [apply single_line_quote|].
    apply single_line_app; [single_line_literal|exact Hkv].
Qed.

(** The body of every response the handler returns is one line that does
    not start with the page's marker [data: ]. *)
Lemma handler_body_shape (P : Platform) (ctx : RequestContext)
    (r : Response.t) (calls : list FetchCall.t) :
  run P ctx = (Normal r, calls) ->
  single_line (Response.body r) /\
  Str.startsWith (lit "data: ") (Response.body r) = false.
Proof.
  destruct (jsstring_eqb (Request.method (请求 ctx)) (lit "POST")) eqn:Hm.
  - apply jsstring_eqb_eq in Hm. rewrite (run_POST P ctx Hm).
    destruct (network P (forwarded_call ctx)) as [upstream|e];
      [|discriminate].
    destruct (Upstream.body upstream) as [reader|]; [|discriminate].
    destruct (failure reader); [discriminate|].
    intros H. injection H as <- _. split.
    + apply single_line_stringify.
    + reflexivity.
  - apply jsstring_eqb_neq in Hm. rewrite (run_not_POST P ctx Hm).
    intros H. injection H as <- _. split; [single_line_literal|reflexivity].
Qed.

(** X11.  The page's read loop finds nothing in a response of the
    handler: the handler answers with one JSON document on one line, and
    that line does not start with [data: ].  When a read delivers the
    body, the loop leaves [accumulatedContent], the messages and the log
    as they are, so the assistant's message stays empty. *)
Theorem handler_response_gives_page_nothing
    (P : Platform) (ctx : RequestContext) (r : Response.t)
    (calls : list FetchCall.t) (value : bytes) (loop : Page.Loop) :
  run P ctx = (Normal r, calls) ->
  TextDecoder.decode value = Response.body r ->
  Page.process_chunk loop value = loop.
Proof.
  intros Hrun Hvalue.
  destruct (handler_body_shape P ctx r calls Hrun) as [Hline Hstart].
  unfold Page.process_chunk. rewrite Hvalue.
  rewrite (split_no_sep LF (Response.body r) Hline). simpl.
  unfold Page.process_line. rewrite Hstart.
  now rewrite andb_false_r.
Qed.

Lemma handler_response_witness :
  Page.process_chunk
    {| Page.accumulatedContent := [];
       Page.shown := [{| Page.role := Page.assistant; Page.content := [] |}];
       Page.logged := [] |}
    answer_bytes =
  {| Page.accumulatedContent := [];
     Page.shown := [{| Page.role := Page.assistant; Page.content := [] |}];
     Page.logged := [] |}.
Proof.
  apply (handler_response_gives_page_nothing
           (streaming [] [interleaved_chunk]) POST_request
           (json_response
              (envelope (lit "3f2b8c1e-5d4a-4e6f-9a7b-0c1d2e3f4a5b")
                        1762000000000 default_model (lit "Hello")))
           [forwarded_call POST_request] answer_bytes).
  - vm_compute. reflexivity.
  - vm_compute. reflexivity.
Defined.

(** ** The selected model *)

Lemma after_fetch_keeps_model (answer : Page.error + Page.Fetched)
    (st : Page.State) :
  Page.selectedModel (fst (fst (Page.after_fetch answer st))) =
  Page.selectedModel st.
Proof.
  unfold Page.after_fetch. destruct answer as [err|response]; [reflexivity|].
  destruct (negb (Page.ok response)); [reflexivity|].
  destruct (Page.stream response); reflexivity.
Qed.

Lemma handleSubmit_keeps_model (env : Page.Env) (st : Page.State) :
  Page.selectedModel (fst (Page.handleSubmit env st)) = Page.selectedModel st.
Proof.
  unfold Page.handleSubmit.
  destruct (Nat.eqb (List.length (Str.trim (Page.input st))) 0 ||
            Page.isLoading st); [reflexivity|].
  destruct (Page.isStreaming st).
  { unfold Page.handleStop. destruct (Page.abortController st); reflexivity. }
  match goal with
  | |- context [Page.after_fetch ?a ?s] =>
      pose proof (after_fetch_keeps_model a s) as Hkeep;
      destruct (Page.after_fetch a s) as [[st2 effects] thrown]
  end.
  simpl in Hkeep.
  destruct thrown as [err|]; [|exact Hkeep].
  unfold Page.catch_block. destruct (Page.is_abort err); exact Hkeep.
Qed.

Lemma currentModelName_of_option (st : Page.State) (model : Page.ModelOption) :
  In model Page.MODEL_OPTIONS ->
  Page.selectedModel st = Page.id model ->
  Page.currentModelName st = Page.name model.
Proof.
  intros Hin Hsel. unfold Page.currentModelName. rewrite Hsel.
  simpl in Hin.
  repeat (destruct Hin as [<-|Hin]; [vm_compute; reflexivity|]).
  contradiction.
Qed.

(** X12.  The selected model is always one of [MODEL_OPTIONS]: it is the
    third option at the start, clicks in the selector choose among the
    options, and nothing else sets it.  So the name shown for it is the
    option's name, never [Unknown]. *)
Theorem selected_model_is_an_option (st : Page.State) :
  Page.reachable st ->
  exists model,
    In model Page.MODEL_OPTIONS /\
    Page.selectedModel st = Page.id model /\
    Page.currentModelName st = Page.name model /\
    Page.currentModelName st <> lit "Unknown".
Proof.
  intros Hreach.
  assert (H : exists model, In model Page.MODEL_OPTIONS /\
                            Page.selectedModel st = Page.id model).
  { induction Hreach as [|st ev _ [model [Hin Hsel]] Hev].
    - eexists. split; [right; right; left; reflexivity|reflexivity].
    - destruct ev as [value| |chosen|env]; simpl.
      + exists model. now split.
      + exists model. now split.
      + exists chosen. split; [now apply Hev|reflexivity].
      + exists model. split; [exact Hin|].
        now rewrite handleSubmit_keeps_model. }
  destruct H as [model [Hin Hsel]]. exists model.
  pose proof (currentModelName_of_option st model Hin Hsel) as Hname.
  repeat split; try assumption.
  rewrite Hname. simpl in Hin.
  repeat (destruct Hin as [<-|Hin]; [vm_compute; discriminate|]).
  contradiction.
Qed.

Lemma selected_model_witness :
  exists model,
    In model Page.MODEL_OPTIONS /\
    Page.selectedModel
      (Page.step (Page.step (Page.step Page.initial (Page.SelectModel llama))
                            (Page.Type_ (lit "hi")))
                 (Page.Submit (page_env (sse_answer None)))) = Page.id model /\
    Page.currentModelName
      (Page.step (Page.step (Page.step Page.initial (Page.SelectModel llama))
                            (Page.Type_ (lit "hi")))
                 (Page.Submit (page_env (sse_answer None)))) = Page.name model /\
    Page.currentModelName
      (Page.step (Page.step (Page.step Page.initial (Page.SelectModel llama))
                            (Page.Type_ (lit "hi")))
                 (Page.Submit (page_env (sse_answer None)))) <> lit "Unknown".
Proof.
  apply selected_model_is_an_option.
  apply Page.reachable_step; [|discriminate].
  apply Page.reachable_step; [|discriminate].
  apply Page.reachable_step; [apply Page.reachable_initial|].
  intros model H. injection H as <-.
  right. right. right. left. reflexivity.
Defined.

(** ** The conversation between submissions *)

Lemma exchanges_app (a b : list Page.Message) :
  exchanges a -> exchanges b -> exchanges (a ++ b).
Proof.
  intros Ha Hb. induction Ha; simpl; [exact Hb|]. now constructor.
Qed.

Lemma page_chunks_parse_log (chunks : list bytes) (loop : Page.Loop) :
  Forall parse_log (Page.logged loop) ->
  Forall parse_log (Page.logged (fold_left Page.process_chunk chunks loop)).
Proof.
  revert loop; induction chunks as [|c cs IH]; intros loop H; simpl;
    [exact H|].
  apply IH. unfold Page.process_chunk.
  generalize (Str.split LF (TextDecoder.decode c)). intros lines.
  revert loop H; induction lines as [|l ls IHl]; intros loop H; simpl;
    [exact H|].
  apply IHl. unfold Page.process_line.
  destruct (negb (Nat.eqb (List.length (Str.trim l)) 0) &&
            Str.startsWith (lit "data: ") l); [|exact H].
  destruct (Page.try_line (Page.accumulatedContent loop) l) as [a|e]; simpl;
    [exact H|].
  apply Forall_app. split; [exact H|]. repeat constructor. now exists e.
Qed.

(** A submission that goes past the guards ends settled: the two
    messages are appended and the flags are down, whatever the network
    did; and it aborts nothing. *)
Lemma handleSubmit_settles (env : Page.Env) (st : Page.State) :
  submits st ->
  (exists answer, fst (Page.handleSubmit env st) = settled st answer) /\
  ~ In Page.Abort (snd (Page.handleSubmit env st)).
Proof.
  intros Hs. rewrite (handleSubmit_started env st Hs).
  unfold Page.after_fetch.
  assert (Hapology : forall last,
            Page.but_last
              ((Page.messages st ++
                [{| Page.role := Page.user;
                    Page.content := Str.trim (Page.input st) |}]) ++ [last]) ++
            [{| Page.role := Page.assistant; Page.content := Page.apology |}] =
            Page.messages (settled st Page.apology)).
  { intros last. unfold Page.but_last. rewrite removelast_last.
    unfold settled. simpl. now rewrite <- app_assoc. }
  assert (Hcatch : forall err shown0 answer,
            shown0 = {| Page.role := Page.assistant; Page.content := answer |} ->
            exists final,
              Page.finally_block
                (fst (Page.catch_block err
                        (Page.setMessages
                           (fun _ =>
                              (Page.messages st ++
                               [{| Page.role := Page.user;
                                   Page.content := Str.trim (Page.input st) |}])
                              ++ [shown0])
                           (started st)))) = settled st final).
  { intros err shown0 answer ->. unfold Page.catch_block.
    destruct (Page.is_abort err).
    - exists answer. page_unfold. now rewrite <- app_assoc.
    - exists Page.apology. page_unfold. f_equal. apply Hapology. }
  assert (Hno : forall err s, ~ In Page.Abort (snd (Page.catch_block err s))).
  { intros err s. unfold Page.catch_block.
    destruct (Page.is_abort err); simpl; intros [H|[]]; discriminate. }
  assert (Hstart : Page.setMessages
                     (fun _ =>
                        (Page.messages st ++
                         [{| Page.role := Page.user;
                             Page.content := Str.trim (Page.input st) |}]) ++
                        [{| Page.role := Page.assistant; Page.content := [] |}])
                     (started st) = started st).
  { page_unfold. reflexivity. }
  destruct (Page.respond env (posted env st)) as [err|response].
  - destruct (Hcatch err _ [] eq_refl) as [final Hfinal].
    rewrite Hstart in Hfinal.
    destruct (Page.catch_block err (started st)) as [st3 caught] eqn:Hc.
    split; [exists final; exact Hfinal|].
    simpl. intros [H|H]; [discriminate|].
    apply (Hno err (started st)). now rewrite Hc.
  - destruct (negb (Page.ok response)).
    { destruct (Hcatch (Page.HTTPError (Page.status response)) _ [] eq_refl)
        as [final Hfinal].
      rewrite Hstart in Hfinal.
      destruct (Page.catch_block _ (started st)) as [st3 caught] eqn:Hc.
      split; [exists final; exact Hfinal|].
      simpl. intros [H|H]; [discriminate|].
      apply (Hno (Page.HTTPError (Page.status response)) (started st)).
      now rewrite Hc. }
    destruct (Page.stream response) as [body|].
    2:{ destruct (Hcatch (Page.Thrown TypeError) _ [] eq_refl)
          as [final Hfinal].
        rewrite Hstart in Hfinal.
        destruct (Page.catch_block _ (started st)) as [st3 caught] eqn:Hc.
        split; [exists final; exact Hfinal|].
        simpl. intros [H|H]; [discriminate|].
        apply (Hno (Page.Thrown TypeError) (started st)). now rewrite Hc. }
    pose proof (page_loop_shown (Page.reads body)
                  (Page.messages st ++
                   [{| Page.role := Page.user;
                       Page.content := Str.trim (Page.input st) |}])) as Hshown.
    pose proof (page_chunks_parse_log (Page.reads body)
                  {| Page.accumulatedContent := [];
                     Page.shown := Page.messages (started st);
                     Page.logged := [] |} (Forall_nil _)) as Hlog.
    change (Page.messages (started st))
      with ((Page.messages st ++
             [{| Page.role := Page.user;
                 Page.content := Str.trim (Page.input st) |}]) ++
            [{| Page.role := Page.assistant; Page.content := [] |}]) in *.
    set (loop := fold_left Page.process_chunk (Page.reads body) _) in *.
    assert (Hlogged : ~ In Page.Abort (Page.logged loop)).
    { intros Hin. rewrite Forall_forall in Hlog.
      destruct (Hlog _ Hin) as [err Herr]. discriminate. }
    destruct (Page.ending body) as [err|].
    + destruct (Hcatch err _ (Page.accumulate (Page.reads body)) eq_refl)
        as [final Hfinal].
      rewrite Hshown.
      destruct (Page.catch_block err _) as [st3 caught] eqn:Hc.
      split; [exists final; exact Hfinal|].
      simpl. intros [H|H]; [discriminate|].
      apply in_app_or in H as [H|H]; [now apply Hlogged|].
      apply (Hno err (Page.setMessages
                        (fun _ =>
                           (Page.messages st ++
                            [{| Page.role := Page.user;
                                Page.content := Str.trim (Page.input st) |}]) ++
                           [{| Page.role := Page.assistant;
                               Page.content :=
                                 Page.accumulate (Page.reads body) |}])
                        (started st))).
      now rewrite Hc.
    + split.
      * exists (Page.accumulate (Page.reads body)). rewrite Hshown.
        page_unfold. now rewrite <- app_assoc.
      * simpl. rewrite app_nil_r. intros [H|H]; [discriminate|].
        now apply Hlogged.
Qed.

(** X13.  Between submissions the page is idle and its conversation is
    well formed: both flags are down, the ref holds no controller, and
    the messages are exchanges of one user message followed by one
    assistant message.  No submission ever calls [abort]: while a
    request is under way ([isLoading] is up) [handleSubmit] returns at
    its first guard, so the branch that calls [handleStop] is never
    taken. *)
Theorem page_is_idle_between_submissions (st : Page.State) :
  Page.reachable st ->
  exchanges (Page.messages st) /\
  Page.isLoading st = false /\
  Page.isStreaming st = false /\
  Page.abortController st = false /\
  (forall env, ~ In Page.Abort (snd (Page.handleSubmit env st))) /\
  (forall env busy,
     Page.isLoading busy = true -> Page.handleSubmit env busy = (busy, [])).
Proof.
  intros Hreach.
  assert (Hbusy : forall env busy,
            Page.isLoading busy = true ->
            Page.handleSubmit env busy = (busy, [])).
  { intros env busy Hl. unfold Page.handleSubmit.
    now rewrite Hl, orb_true_r. }
  assert (Hinv : exchanges (Page.messages st) /\
                 Page.isLoading st = false /\
                 Page.isStreaming st = false /\
                 Page.abortController st = false).
  { induction Hreach as [|st ev _ (Hex & Hl & Hs & Ha) _].
    - repeat split. constructor.
    - destruct ev as [value| |chosen|env]; simpl;
        try (repeat split; assumption).
      destruct (Nat.eqb (List.length (Str.trim (Page.input st))) 0) eqn:Hin.
      + unfold Page.handleSubmit. rewrite Hin. simpl.
        repeat split; assumption.
      + destruct (handleSubmit_settles env st (conj Hin (conj Hl Hs)))
          as [[answer Hfinal] _].
        rewrite Hfinal. repeat split.
        unfold settled. simpl. apply exchanges_app; [exact Hex|].
        repeat constructor. }
  destruct Hinv as (Hex & Hl & Hs & Ha).
  repeat split; try assumption.
  - intros env.
    destruct (Nat.eqb (List.length (Str.trim (Page.input st))) 0) eqn:Hin.
    + unfold Page.handleSubmit. rewrite Hin. simpl. tauto.
    + exact (proj2 (handleSubmit_settles env st (conj Hin (conj Hl Hs)))).
Qed.

Lemma page_is_idle_witness :
  exchanges
    (Page.messages
       (Page.step (Page.step Page.initial (Page.Type_ (lit "  hi ")))
                  (Page.Submit (page_env (sse_answer None))))) /\
  Page.messages
    (Page.step (Page.step Page.initial (Page.Type_ (lit "  hi ")))
               (Page.Submit (page_env (sse_answer None)))) =
  [{| Page.role := Page.user; Page.content := lit "hi" |};
   {| Page.role := Page.assistant; Page.content := lit "Hello" |}].
Proof.
  split.
  - apply (page_is_idle_between_submissions
             (Page.step (Page.step Page.initial (Page.Type_ (lit "  hi ")))
                        (Page.Submit (page_env (sse_answer None))))).
    apply Page.reachable_step; [|discriminate].
    apply Page.reachable_step; [apply Page.reachable_initial|discriminate].
  - vm_compute. reflexivity.
Defined.

(** ** The older handler *)

(** X14.  [onRequestPost] is [onRequest] without the check of the
    method: whatever the method of the request, it does what
    [onRequest] does with the same headers and body sent as a POST, so
    it calls the upstream also where [onRequest] answers 405. *)
Theorem onRequestPost_is_onRequest_of_POST (P : Platform)
    (ctx : RequestContext) :
  runPost P ctx = run P (as_POST ctx).
Proof.
  rewrite (run_POST P (as_POST ctx)) by reflexivity.
  rewrite runPost_cases. reflexivity.
Qed.

(** ** Reading back what [JSON.stringify] wrote *)

(** *** Strings *)

Lemma hex_value_hex_digit (n : N) :
  (n < 16)%N -> JSON.hex_value (JSON.hex_digit n) = Some n.
Proof.
  intros H. unfold JSON.hex_digit, JSON.hex_value.
  destruct (N.ltb_spec n 10) as [Hn|Hn].
  - rewrite (proj2 (N.leb_le 48 (48 + n))) by lia.
    rewrite (proj2 (N.leb_le (48 + n) 57)) by lia.
    cbn [andb]. f_equal. lia.
  - rewrite (proj2 (N.leb_gt (87 + n) 57)) by lia.
    rewrite (proj2 (N.leb_gt (87 + n) 70)) by lia.
    rewrite !andb_false_r.
    rewrite (proj2 (N.leb_le 97 (87 + n))) by lia.
    rewrite (proj2 (N.leb_le (87 + n) 102)) by lia.
    cbn [andb]. f_equal. lia.
Qed.

Lemma hex4_unicode_escape (c : code_unit) :
  (c < 65536)%N ->
  JSON.hex4 (JSON.hex_digit (c / 4096)) (JSON.hex_digit ((c / 256) mod 16))
            (JSON.hex_digit ((c / 16) mod 16)) (JSON.hex_digit (c mod 16)) =
  Some c.
Proof.
  intros H. unfold JSON.hex4.
  rewrite !hex_value_hex_digit.
  - f_equal.
    pose proof (N.div_mod c 16 ltac:(lia)) as H1.
    pose proof (N.div_mod (c / 16) 16 ltac:(lia)) as H2.
    pose proof (N.div_mod (c / 16 / 16) 16 ltac:(lia)) as H3.
    rewrite !N.Div0.div_div in *.
    change (16 * 16)%N with 256%N in *. change (256 * 16)%N with 4096%N in *.
    lia.
  - apply N.mod_lt. lia.
  - apply N.mod_lt. lia.
  - apply N.mod_lt. lia.
  - apply N.Div0.div_lt_upper_bound. exact H.
Qed.

Lemma string_chars_escape (e ch : code_unit) (t : jsstring) :
  N.eqb e 117 = false -> JSON.escape_char e = Some ch ->
  JSON.string_chars (92%N :: e :: t) = JSON.push ch (JSON.string_chars t).
Proof.
  intros H1 H2. cbn [JSON.string_chars].
  change (N.eqb 92 34) with false. change (N.eqb 92 92) with true.
  cbv iota. now rewrite H1, H2.
Qed.

Lemma string_chars_unicode_escape (c : code_unit) (t : jsstring) :
  (c < 65536)%N ->
  JSON.string_chars (JSON.unicode_escape c ++ t) =
  JSON.push c (JSON.string_chars t).
Proof.
  intros H. unfold JSON.unicode_escape. cbn [app JSON.string_chars].
  change (N.eqb 92 34) with false. change (N.eqb 92 92) with true.
  change (N.eqb 117 117) with true. cbv iota.
  now rewrite (hex4_unicode_escape c H).
Qed.

Lemma string_chars_raw (c : code_unit) (t : jsstring) :
  N.eqb c 34 = false -> N.eqb c 92 = false -> N.ltb c 32 = false ->
  JSON.string_chars (c :: t) = JSON.push c (JSON.string_chars t).
Proof. intros H1 H2 H3. cbn [JSON.string_chars]. now rewrite H1, H2, H3. Qed.

Ltac pushed H :=
  match goal with
  | |- JSON.push ?c _ = _ => exact (f_equal (JSON.push c) H)
  end.

(** Reading a string back: the characters [quote_chars] wrote, up to the
    closing quote, are the string. *)
Lemma string_chars_quote_chars (s rest : jsstring) :
  JSON.string_chars (JSON.quote_chars s ++ 34%N :: rest) = Some (s, rest).
Proof.
  remember (List.length s) as n eqn:Hn.
  assert (Hle : List.length s <= n) by lia. clear Hn.
  revert s Hle. induction n as [|n IH]; intros s Hle.
  { destruct s; simpl in *; [reflexivity|lia]. }
  destruct s as [|c s1]; [reflexivity|]. simpl in Hle.
  assert (H1 : JSON.string_chars (JSON.quote_chars s1 ++ 34%N :: rest) =
               Some (s1, rest)) by (apply IH; lia).
  cbn [JSON.quote_chars].
  destruct (N.eqb_spec c 8) as [->|_].
  { rewrite <- app_assoc. cbn [app].
    rewrite (string_chars_escape _ 8%N) by reflexivity. pushed H1. }
  destruct (N.eqb_spec c 9) as [->|_].
  { rewrite <- app_assoc. cbn [app].
    rewrite (string_chars_escape _ 9%N) by reflexivity. pushed H1. }
  destruct (N.eqb_spec c 10) as [->|_].
  { rewrite <- app_assoc. cbn [app].
    rewrite (string_chars_escape _ 10%N) by reflexivity. pushed H1. }
  destruct (N.eqb_spec c 12) as [->|_].
  { rewrite <- app_assoc. cbn [app].
    rewrite (string_chars_escape _ 12%N) by reflexivity. pushed H1. }
  destruct (N.eqb_spec c 13) as [->|_].
  { rewrite <- app_assoc. cbn [app].
    rewrite (string_chars_escape _ 13%N) by reflexivity. pushed H1. }
  destruct (N.eqb c 34) eqn:H34.
  { apply N.eqb_eq in H34. subst c. rewrite <- app_assoc. cbn [app].
    rewrite (string_chars_escape _ 34%N) by reflexivity. pushed H1. }
  destruct (N.eqb c 92) eqn:H92.
  { apply N.eqb_eq in H92. subst c. rewrite <- app_assoc. cbn [app].
    rewrite (string_chars_escape _ 92%N) by reflexivity. pushed H1. }
  destruct (N.ltb c 32) eqn:H32.
  { apply N.ltb_lt in H32. rewrite <- (app_assoc (JSON.unicode_escape c)).
    rewrite string_chars_unicode_escape by lia. pushed H1. }
  destruct (JSON.is_high_surrogate c) eqn:Hhigh.
  { unfold JSON.is_high_surrogate in Hhigh.
    apply andb_prop in Hhigh as [_ Hhigh]. apply N.leb_le in Hhigh.
    destruct s1 as [|d s2].
    - rewrite string_chars_unicode_escape by lia. reflexivity.
    - destruct (JSON.is_low_surrogate d) eqn:Hlow.
      + unfold JSON.is_low_surrogate in Hlow.
        apply andb_prop in Hlow as [Hlow _]. apply N.leb_le in Hlow.
        cbn [app]. rewrite (string_chars_raw c) by assumption.
        rewrite (string_chars_raw d);
          [|apply N.eqb_neq; lia|apply N.eqb_neq; lia|apply N.ltb_ge; lia].
        exact (f_equal (fun r => JSON.push c (JSON.push d r))
                 (IH s2 ltac:(simpl in Hle; lia))).
      + rewrite <- (app_assoc (JSON.unicode_escape c)). rewrite string_chars_unicode_escape by lia.
        pushed H1. }
  destruct (JSON.is_low_surrogate c) eqn:Hlow.
  { unfold JSON.is_low_surrogate in Hlow.
    apply andb_prop in Hlow as [_ Hlow]. apply N.leb_le in Hlow.
    rewrite <- (app_assoc (JSON.unicode_escape c)). rewrite string_chars_unicode_escape by lia.
    pushed H1. }
  cbn [app]. rewrite (string_chars_raw c) by assumption. pushed H1.
Qed.

(** *** Numbers *)

Lemma number_phases (s : jsstring) :
  JSON.number s =
  let '(neg, s1) := number_sign s in
  let '(int_part, s2) := JSON.digits s1 in
  match int_part with
  | [] => None
  | d :: more =>
      if N.eqb d 0 && negb (Nat.eqb (List.length more) 0) then None
      else
        match number_frac s2 with
        | None => None
        | Some (frac_part, s5) =>
            match number_exponent s5 with
            | None => None
            | Some (e, rest) =>
                Some (Double.of_decimal neg
                        (JSON.digits_value (int_part ++ frac_part))
                        (e - Z.of_nat (List.length frac_part)), rest)
            end
        end
  end.
Proof. reflexivity. Qed.

Lemma delimited_head (c : code_unit) (r : jsstring) :
  delimited (c :: r) ->
  JSON.is_digit c = false /\ N.eqb c 45 = false /\ N.eqb c 46 = false /\
  N.eqb c 101 = false /\ N.eqb c 69 = false /\ N.eqb c 43 = false.
Proof. intros [-> | [-> | ->]]; repeat split. Qed.

Lemma digits_app (a rest : jsstring) :
  delimited rest ->
  JSON.digits (a ++ rest) =
  (fst (JSON.digits a), snd (JSON.digits a) ++ rest).
Proof.
  intros Hd. induction a as [|c a IH]; cbn [app JSON.digits].
  - destruct rest as [|c r]; [reflexivity|].
    destruct (delimited_head c r Hd) as [H _]. cbn [JSON.digits].
    now rewrite H.
  - destruct (JSON.is_digit c); [|reflexivity].
    rewrite IH. now destruct (JSON.digits a).
Qed.

Lemma number_sign_app (s rest : jsstring) :
  delimited rest ->
  number_sign (s ++ rest) =
  (fst (number_sign s), snd (number_sign s) ++ rest).
Proof.
  intros Hd. destruct s as [|c s]; cbn [app number_sign].
  - destruct rest as [|c r]; [reflexivity|].
    destruct (delimited_head c r Hd) as (_ & H & _). cbn [number_sign].
    now rewrite H.
  - now destruct (N.eqb c 45).
Qed.

Lemma number_frac_app (s rest : jsstring) :
  delimited rest ->
  number_frac (s ++ rest) = with_rest rest (number_frac s).
Proof.
  intros Hd. destruct s as [|c s]; cbn [app number_frac].
  - destruct rest as [|c r]; [reflexivity|].
    destruct (delimited_head c r Hd) as (_ & _ & H & _). cbn [number_frac].
    now rewrite H.
  - destruct (N.eqb c 46); [|reflexivity].
    rewrite (digits_app s rest Hd).
    destruct (JSON.digits s) as [fs s4]. cbn [fst snd].
    now destruct fs.
Qed.

Lemma number_exponent_app (s rest : jsstring) :
  delimited rest ->
  number_exponent (s ++ rest) = with_rest rest (number_exponent s).
Proof.
  intros Hd. destruct s as [|c s]; cbn [app number_exponent].
  - destruct rest as [|c r]; [reflexivity|].
    destruct (delimited_head c r Hd) as (_ & _ & _ & H1 & H2 & _).
    cbn [number_exponent]. now rewrite H1, H2.
  - destruct (N.eqb c 101 || N.eqb c 69); [|reflexivity].
    assert (Hsign :
              match s ++ rest with
              | sg :: s' =>
                  if N.eqb sg 45 then (true, s')
                  else if N.eqb sg 43 then (false, s')
                  else (false, s ++ rest)
              | [] => (false, s ++ rest)
              end =
              (let '(eneg, s7) :=
                 match s with
                 | sg :: s' =>
                     if N.eqb sg 45 then (true, s')
                     else if N.eqb sg 43 then (false, s')
                     else (false, s)
                 | [] => (false, s)
                 end in (eneg, s7 ++ rest))).
    { destruct s as [|sg s']; cbn [app].
      - destruct rest as [|c' r]; [reflexivity|].
        destruct (delimited_head c' r Hd) as (_ & H1 & _ & _ & _ & H2).
        now rewrite H1, H2.
      - destruct (N.eqb sg 45); [reflexivity|].
        now destruct (N.eqb sg 43). }
    rewrite Hsign.
    destruct (match s with
              | sg :: s' =>
                  if N.eqb sg 45 then (true, s')
                  else if N.eqb sg 43 then (false, s')
                  else (false, s)
              | [] => (false, s)
              end) as [eneg s7].
    rewrite (digits_app s7 rest Hd).
    destruct (JSON.digits s7) as [es s8]. cbn [fst snd].
    now destruct es.
Qed.

(** A number is read alike whatever delimiter follows it. *)
Lemma number_app (s rest : jsstring) :
  delimited rest ->
  JSON.number (s ++ rest) = with_rest rest (JSON.number s).
Proof.
  intros Hd. rewrite !number_phases.
  rewrite (number_sign_app s rest Hd).
  destruct (number_sign s) as [neg s1]. cbn [fst snd].
  rewrite (digits_app s1 rest Hd).
  destruct (JSON.digits s1) as [int_part s2]. cbn [fst snd].
  destruct int_part as [|d more]; [reflexivity|].
  destruct (N.eqb d 0 && negb (Nat.eqb (List.length more) 0)); [reflexivity|].
  rewrite (number_frac_app s2 rest Hd).
  destruct (number_frac s2) as [[frac_part s5]|]; [|reflexivity].
  cbn [with_rest].
  rewrite (number_exponent_app s5 rest Hd).
  now destruct (number_exponent s5) as [[e r]|].
Qed.

(** *** Values *)

Lemma skip_ws_head (c : code_unit) (s : jsstring) :
  JSON.is_ws c = false -> JSON.skip_ws (c :: s) = c :: s.
Proof. intros H. cbn [JSON.skip_ws]. now rewrite H. Qed.

Lemma number_head (c : code_unit) (s : jsstring) (x : spec_float)
    (r : jsstring) :
  JSON.number (c :: s) = Some (x, r) ->
  c = 45%N \/ JSON.is_digit c = true.
Proof.
  rewrite number_phases. cbn [number_sign].
  destruct (N.eqb_spec c 45) as [->|_]; [now left|].
  cbn [JSON.digits]. destruct (JSON.is_digit c); [now right|discriminate].
Qed.

(** The first character of a number's text tells the parser that a
    number follows. *)
Lemma parse_value_number (fuel : nat) (c : code_unit) (s : jsstring)
    (x : spec_float) (r : jsstring) :
  c = 45%N \/ JSON.is_digit c = true ->
  JSON.number (c :: s) = Some (x, r) ->
  JSON.parse_value (S fuel) (c :: s) = JSON.Parsed (JNumber x) r.
Proof.
  intros Hc Hnum.
  assert (H : JSON.is_ws c = false /\ N.eqb c 123 = false /\
              N.eqb c 91 = false /\ N.eqb c 34 = false /\
              N.eqb 116 c = false /\ N.eqb 102 c = false /\
              N.eqb 110 c = false).
  { destruct Hc as [->|Hc]; [repeat split|].
    unfold JSON.is_digit in Hc. apply andb_prop in Hc as [H1 H2].
    apply N.leb_le in H1, H2. unfold JSON.is_ws.
    repeat split; try (apply N.eqb_neq; lia).
    repeat (apply orb_false_intro); apply N.eqb_neq; lia. }
  destruct H as (Hws & H123 & H91 & H34 & Ht & Hf & Hn).
  cbn [JSON.parse_value]. rewrite (skip_ws_head c s Hws).
  rewrite H123, H91, H34.
  change (Str.startsWith (lit "true") (c :: s))
    with (N.eqb 116 c && Str.startsWith (lit "rue") s).
  change (Str.startsWith (lit "false") (c :: s))
    with (N.eqb 102 c && Str.startsWith (lit "alse") s).
  change (Str.startsWith (lit "null") (c :: s))
    with (N.eqb 110 c && Str.startsWith (lit "ull") s).
  rewrite Ht, Hf, Hn. cbn [andb]. now rewrite Hnum.
Qed.

Lemma set_member_fresh (key : jsstring) (v : value)
    (acc : list (jsstring * value)) :
  ~ In key (map fst acc) -> JSON.set_member key v acc = acc ++ [(key, v)].
Proof.
  induction acc as [|[k old] acc IH]; intros H; cbn [JSON.set_member app].
  - reflexivity.
  - cbn [map fst In] in H.
    destruct (jsstring_eqb k key) eqn:Hk.
    + apply jsstring_eqb_eq in Hk. tauto.
    + f_equal. apply IH. tauto.
Qed.

(** The text of a value that reads back starts with a character that is
    no white space and closes nothing. *)
Lemma stringify_head (v : value) (t : jsstring) :
  reads_back v ->
  exists c s, JSON.stringify v ++ t = c :: s /\
              JSON.is_ws c = false /\
              N.eqb c 93 = false /\ N.eqb c 125 = false.
Proof.
  intros H. destruct H as [|b|x [Hfin Hnum]|s|elements _|members _ _].
  - eexists _, _. repeat split.
  - destruct b; eexists _, _; repeat split.
  - cbn [JSON.stringify]. rewrite Hfin.
    destruct (Double.toString x) as [|c s] eqn:Htext; [discriminate|].
    exists c, (s ++ t). split; [reflexivity|].
    destruct (number_head c s x [] Hnum) as [->|Hc]; [repeat split|].
    unfold JSON.is_digit in Hc. apply andb_prop in Hc as [H1 H2].
    apply N.leb_le in H1, H2. unfold JSON.is_ws.
    repeat split; try (apply N.eqb_neq; lia).
    repeat (apply orb_false_intro); apply N.eqb_neq; lia.
  - eexists _, _. repeat split.
  - eexists _, _. repeat split.
  - eexists _, _. repeat split.
Qed.

Lemma parse_elements_step (fuel : nat) (s : jsstring) (acc : list value) :
  JSON.parse_elements (S fuel) s acc =
  match JSON.parse_value fuel s with
  | JSON.Parsed v rest =>
      match JSON.skip_ws rest with
      | c :: rest' =>
          if N.eqb c 44 then JSON.parse_elements fuel rest' (acc ++ [v])
          else if N.eqb c 93 then JSON.Parsed (JArray (acc ++ [v])) rest'
          else JSON.Failed
      | [] => JSON.Failed
      end
  | JSON.Failed => JSON.Failed
  | JSON.Exhausted => JSON.Exhausted
  end.
Proof. reflexivity. Qed.

Lemma parse_members_step (fuel : nat) (key s : jsstring) (v : value)
    (c : code_unit) (rest : jsstring) (acc : list (jsstring * value)) :
  JSON.parse_value fuel s = JSON.Parsed v (c :: rest) ->
  JSON.is_ws c = false ->
  JSON.parse_members (S fuel)
    (JSON.quote key ++ lit ":" ++ s) acc =
  if N.eqb c 44 then
    JSON.parse_members fuel rest (JSON.set_member key v acc)
  else if N.eqb c 125 then JSON.Parsed (JObject (JSON.set_member key v acc)) rest
  else JSON.Failed.
Proof.
  intros Hv Hc. unfold JSON.quote.
  change (([34%N] ++ JSON.quote_chars key ++ [34%N]) ++ lit ":" ++ s)
    with (34%N :: ((JSON.quote_chars key ++ [34%N]) ++ 58%N :: s)).
  rewrite <- app_assoc. cbn [app].
  cbn [JSON.parse_members].
  rewrite (skip_ws_head 34%N) by reflexivity.
  change (N.eqb 34 34) with true. cbv iota.
  rewrite string_chars_quote_chars.
  rewrite (skip_ws_head 58%N) by reflexivity.
  change (N.eqb 58 58) with true. cbv iota.
  rewrite Hv. now rewrite (skip_ws_head c rest Hc).
Qed.

Lemma parse_value_array (fuel : nat) (s1 : jsstring) (c : code_unit)
    (s : jsstring) :
  s1 = c :: s -> JSON.is_ws c = false -> N.eqb c 93 = false ->
  JSON.parse_value (S fuel) (91%N :: s1) = JSON.parse_elements fuel s1 [].
Proof.
  intros -> Hws Hc. cbn [JSON.parse_value].
  rewrite (skip_ws_head 91%N) by reflexivity.
  change (N.eqb 91 123) with false. change (N.eqb 91 91) with true.
  cbv iota. now rewrite (skip_ws_head c s Hws), Hc.
Qed.

Lemma parse_value_object (fuel : nat) (s1 s : jsstring) :
  s1 = 34%N :: s ->
  JSON.parse_value (S fuel) (123%N :: s1) = JSON.parse_members fuel s1 [].
Proof.
  intros ->. cbn [JSON.parse_value].
  rewrite (skip_ws_head 123%N) by reflexivity.
  change (N.eqb 123 123) with true. cbv iota.
  now rewrite skip_ws_head by reflexivity.
Qed.

Ltac fuel_lia :=
  unfold jsstring, code_unit in *;
  repeat first
    [ progress cbn [List.length] in *
    | match goal with
      | H : context [List.length (_ ++ _)] |- _ => rewrite length_app in H
      | |- context [List.length (_ ++ _)] => rewrite length_app
      end ];
  lia.

Section RoundTrip.

Variable rest : jsstring.

(** The elements of an array after the first bracket. *)
Lemma parse_elements_stringify (elements : list value) :
  Forall (fun e =>
            forall fuel t, delimited t ->
              2 * List.length (JSON.stringify e ++ t) + 1 <= fuel ->
              JSON.parse_value fuel (JSON.stringify e ++ t) = JSON.Parsed e t)
         elements ->
  elements <> [] ->
  forall fuel acc,
    2 * List.length
          (Str.join (lit ",") (map JSON.stringify elements) ++ 93%N :: rest)
      + 2 <= fuel ->
    JSON.parse_elements fuel
      (Str.join (lit ",") (map JSON.stringify elements) ++ 93%N :: rest) acc =
    JSON.Parsed (JArray (acc ++ elements)) rest.
Proof.
  induction 1 as [|e more He _ IH]; intros Hne fuel acc Hfuel;
    [now elim Hne|].
  destruct fuel as [|fuel]; [lia|]. rewrite parse_elements_step.
  destruct more as [|e2 more].
  - cbn [map Str.join] in *.
    rewrite He; [|right; now left|fuel_lia].
    rewrite (skip_ws_head 93%N) by reflexivity. reflexivity.
  - change (Str.join (lit ",") (map JSON.stringify (e :: e2 :: more)))
      with (JSON.stringify e ++ [44%N] ++
            Str.join (lit ",") (map JSON.stringify (e2 :: more))) in *.
    rewrite <- !app_assoc in *. cbn [app] in *.
    rewrite He; [|now left|fuel_lia].
    rewrite (skip_ws_head 44%N) by reflexivity.
    change (N.eqb 44 44) with true. cbv iota.
    rewrite IH; [now rewrite <- app_assoc|discriminate|fuel_lia].
Qed.

(** The members of an object after the first brace. *)
Lemma parse_members_stringify (members : list (jsstring * value)) :
  Forall (fun kv =>
            forall fuel t, delimited t ->
              2 * List.length (JSON.stringify (snd kv) ++ t) + 1 <= fuel ->
              JSON.parse_value fuel (JSON.stringify (snd kv) ++ t) =
              JSON.Parsed (snd kv) t)
         members ->
  members <> [] ->
  forall fuel acc,
    NoDup (map fst (acc ++ members)) ->
    2 * List.length
          (Str.join (lit ",") (map member_text members) ++ 125%N :: rest)
      + 2 <= fuel ->
    JSON.parse_members fuel
      (Str.join (lit ",") (map member_text members) ++ 125%N :: rest) acc =
    JSON.Parsed (JObject (acc ++ members)) rest.
Proof.
  induction 1 as [|[k v] more Hv _ IH]; intros Hne fuel acc Hkeys Hfuel;
    [now elim Hne|].
  cbn [snd] in Hv.
  assert (Hfresh : ~ In k (map fst acc)).
  { rewrite map_app in Hkeys. cbn [map fst] in Hkeys.
    apply NoDup_remove_2 in Hkeys. intros Hin. apply Hkeys.
    apply in_or_app. now left. }
  destruct fuel as [|fuel]; [lia|].
  destruct more as [|kv2 more].
  - cbn [map Str.join] in *. unfold member_text in *. cbn [fst snd] in *.
    rewrite <- !app_assoc in *.
    rewrite (parse_members_step fuel k _ v 125%N rest acc);
      [|apply Hv; [right; now right|fuel_lia]|reflexivity].
    change (N.eqb 125 44) with false. change (N.eqb 125 125) with true.
    cbv iota. now rewrite set_member_fresh.
  - change (Str.join (lit ",") (map member_text ((k, v) :: kv2 :: more)))
      with (member_text (k, v) ++ [44%N] ++
            Str.join (lit ",") (map member_text (kv2 :: more))) in *.
    unfold member_text at 1. unfold member_text in Hfuel at 1.
    cbn [fst snd] in *.
    rewrite <- !app_assoc in *. cbn [app] in *.
    rewrite (parse_members_step fuel k _ v 44%N
               (Str.join (lit ",") (map member_text (kv2 :: more)) ++
                125%N :: rest) acc);
      [|apply Hv; [now left|fuel_lia]|reflexivity].
    change (N.eqb 44 44) with true. cbv iota.
    rewrite set_member_fresh by exact Hfresh.
    rewrite IH; [now rewrite <- app_assoc|discriminate| |fuel_lia].
    now rewrite <- app_assoc.
Qed.

End RoundTrip.

(** What [stringify] wrote for a value that reads back, followed by a
    delimiter, is parsed as that value, up to the delimiter. *)
Lemma parse_value_stringify (v : value) :
  reads_back v ->
  forall fuel t, delimited t ->
    2 * List.length (JSON.stringify v ++ t) + 1 <= fuel ->
    JSON.parse_value fuel (JSON.stringify v ++ t) = JSON.Parsed v t.
Proof.
  induction v as [|b|x|s|elements IH|members IH] using value_induction;
    intros Hv fuel t Ht Hfuel;
    (destruct fuel as [|fuel]; [lia|]).
  - reflexivity.
  - destruct b; reflexivity.
  - inversion Hv as [| |x' [Hfin Hnum]| | |]; subst.
    cbn [JSON.stringify] in *. rewrite Hfin in *.
    destruct (Double.toString x) as [|c s] eqn:Htext; [discriminate|].
    apply parse_value_number.
    + exact (number_head c s x [] Hnum).
    + pose proof (number_app (c :: s) t Ht) as Happ.
      rewrite Hnum in Happ. exact Happ.
  - cbn [JSON.stringify JSON.quote]. unfold JSON.quote.
    rewrite <- !app_assoc. cbn [app JSON.parse_value].
    rewrite (skip_ws_head 34%N) by reflexivity.
    change (N.eqb 34 123) with false. change (N.eqb 34 91) with false.
    change (N.eqb 34 34) with true. cbv iota.
    now rewrite string_chars_quote_chars.
  - inversion Hv as [| | | |elements' Hall|]; subst.
    destruct elements as [|e more]; [reflexivity|].
    cbn [JSON.stringify] in *.
    change (lit "[") with [91%N] in *. change (lit "]") with [93%N] in *.
    rewrite <- !app_assoc in *. cbn [app] in *.
    assert (Hhead : exists c s,
               Str.join (lit ",") (map JSON.stringify (e :: more)) ++
               93%N :: t = c :: s /\
               JSON.is_ws c = false /\ N.eqb c 93 = false).
    { inversion Hall as [|e' more' He _]; subst.
      destruct more as [|e2 more].
      - destruct (stringify_head e (93%N :: t) He) as (c & s & H1 & H2 & H3 & _).
        now exists c, s.
      - change (Str.join (lit ",") (map JSON.stringify (e :: e2 :: more)))
          with (JSON.stringify e ++ [44%N] ++
                Str.join (lit ",") (map JSON.stringify (e2 :: more))).
        rewrite <- !app_assoc.
        destruct (stringify_head e
                    ([44%N] ++
                     Str.join (lit ",") (map JSON.stringify (e2 :: more)) ++
                     93%N :: t) He) as (c & s & H1 & H2 & H3 & _).
        now exists c, s. }
    destruct Hhead as (c & s & Htext & Hws & Hclose).
    refine (eq_trans (parse_value_array fuel _ c s Htext Hws Hclose) _).
    apply (parse_elements_stringify t (e :: more));
      [|discriminate|fuel_lia].
    clear - IH Hall. induction IH as [|e' more' He' _ IH']; constructor.
    + inversion Hall; subst. now apply He'.
    + inversion Hall; subst. now apply IH'.
  - inversion Hv as [| | | | |members' Hkeys Hall]; subst.
    destruct members as [|[k v] more]; [reflexivity|].
    cbn [JSON.stringify] in *.
    change (lit "{") with [123%N] in *. change (lit "}") with [125%N] in *.
    change (map (fun kv => JSON.quote (fst kv) ++ lit ":" ++
                           JSON.stringify (snd kv)) ((k, v) :: more))
      with (map member_text ((k, v) :: more)) in *.
    rewrite <- !app_assoc in *. cbn [app] in *.
    assert (Hhead : exists s,
               Str.join (lit ",") (map member_text ((k, v) :: more)) ++
               125%N :: t = 34%N :: s).
    { destruct more as [|kv2 more]; eexists; reflexivity. }
    destruct Hhead as (s & Htext).
    refine (eq_trans (parse_value_object fuel _ s Htext) _).
    apply (parse_members_stringify t ((k, v) :: more));
      [|discriminate|exact Hkeys|fuel_lia].
    clear - IH Hall. induction IH as [|kv' more' He' _ IH']; constructor.
    + inversion Hall; subst. now apply He'.
    + inversion Hall; subst. now apply IH'.
Qed.

(** [JSON.parse] reads back what [JSON.stringify] wrote. *)
Lemma parse_stringify (v : value) :
  reads_back v -> JSON.parse (JSON.stringify v) = Normal v.
Proof.
  intros Hv. unfold JSON.parse.
  pose proof (parse_value_stringify v Hv
                (2 * List.length (JSON.stringify v) + 2) [] I) as H.
  rewrite app_nil_r in H. rewrite H by lia. reflexivity.
Qed.

(** *** The documents of the page and of the handler *)

Ltac distinct_keys :=
  repeat constructor; vm_compute; intuition discriminate.

Lemma reads_back_message (m : Page.Message) :
  reads_back (Page.message_json m).
Proof.
  unfold Page.message_json. constructor; [distinct_keys|].
  repeat constructor.
Qed.

Lemma reads_back_conversation (st : Page.State) :
  reads_back (conversation st).
Proof.
  unfold conversation. apply reads_back_object; [distinct_keys|].
  constructor; [|repeat constructor].
  cbn [snd]. apply reads_back_array, Forall_app. split.
  - apply Forall_map, Forall_forall. intros m _. apply reads_back_message.
  - constructor; [apply reads_back_message|constructor].
Qed.

(** X15.  The body of the request [handleSubmit] sends is a JSON text
    that reads back as what the page put in: the messages so far with
    their roles and contents, followed by the user's input (trimmed),
    [network: false] and the selected model, whatever characters the
    contents hold (quotes, line feeds, control characters, lone
    surrogates). *)
Theorem page_request_reads_back (env : Page.Env) (st : Page.State) :
  submits st ->
  exists request more,
    snd (Page.handleSubmit env st) = Page.Fetch request :: more /\
    JSON.parse (Page.body request) = Normal (conversation st).
Proof.
  intros Hs. rewrite (handleSubmit_started env st Hs).
  destruct (Page.after_fetch _ _) as [[st2 effects] thrown].
  destruct (match thrown with
            | Some err => Page.catch_block err st2
            | None => (st2, [])
            end) as [st3 caught].
  exists (posted env st), (effects ++ caught). split; [reflexivity|].
  apply (parse_stringify (conversation st)), reads_back_conversation.
Qed.

Lemma page_request_witness :
  exists request more,
    snd (Page.handleSubmit (page_env (sse_answer None)) asking) =
      Page.Fetch request :: more /\
    JSON.parse (Page.body request) = Normal (conversation asking).
Proof.
  apply (page_request_reads_back (page_env (sse_answer None)) asking).
  repeat split.
Defined.

Lemma reads_back_zero : reads_back_number (Double.of_Z 0).
Proof. split; reflexivity. Qed.

Lemma reads_back_envelope (id : jsstring) (created : Z)
    (model content : jsstring) :
  reads_back_number (Double.of_Z created) ->
  reads_back (envelope id created model content).
Proof.
  intros Hcreated. pose proof reads_back_zero as Hzero.
  unfold envelope. constructor; [distinct_keys|].
  repeat first
    [ apply Forall_cons | apply Forall_nil
    | apply reads_back_string | apply reads_back_a_number; assumption
    | apply reads_back_array
    | apply reads_back_object; [distinct_keys|] ].
Qed.

(** X16.  The body of a 200 response of the handler is a JSON text that
    reads back as the envelope: a client that parses it finds the
    aggregated content, whatever characters it holds, at
    [choices[0].message.content].  The timestamp is the one number of
    the envelope that is not a literal: it is required to be written as
    a JSON number that reads as itself, as Number::toString does for
    every finite Number. *)
Theorem response_reads_back (P : Platform) (ctx : RequestContext)
    (upstream : Upstream.t) (body : list bytes) :
  is_POST ctx ->
  network P (forwarded_call ctx) = Normal upstream ->
  Upstream.body upstream = Some {| chunks := body; failure := None |} ->
  reads_back_number (Double.of_Z (now P)) ->
  exists r,
    fst (run P ctx) = Normal r /\
    JSON.parse (Response.body r) =
      Normal (envelope (randomUUID P) (now P)
                (or_else (Headers.get (lit "x-model")
                            (Upstream.headers upstream))
                         default_model)
                (aggregate body)) /\
    response_content r = Some (JString (aggregate body)).
Proof.
  intros HP Hnet Hbody Hnow.
  rewrite (run_success P ctx upstream body HP Hnet Hbody).
  eexists. split; [reflexivity|].
  assert (Hparse :
            JSON.parse
              (JSON.stringify
                 (envelope (randomUUID P) (now P)
                    (or_else (Headers.get (lit "x-model")
                                (Upstream.headers upstream))
                             default_model)
                    (aggregate body))) =
            Normal (envelope (randomUUID P) (now P)
                      (or_else (Headers.get (lit "x-model")
                                  (Upstream.headers upstream))
                               default_model)
                      (aggregate body))).
  { apply parse_stringify, reads_back_envelope, Hnow. }
  split; [exact Hparse|].
  unfold response_content, json_response, new_Response.
  cbn [Response.body]. rewrite Hparse. reflexivity.
Qed.

Lemma response_reads_back_witness :
  exists r,
    fst (run (streaming [] [interleaved_chunk]) POST_request) = Normal r /\
    JSON.parse (Response.body r) =
      Normal (envelope (lit "3f2b8c1e-5d4a-4e6f-9a7b-0c1d2e3f4a5b")
                1762000000000 default_model (lit "Hello")) /\
    response_content r = Some (JString (lit "Hello")).
Proof.
  apply (response_reads_back (streaming [] [interleaved_chunk]) POST_request
           {| Upstream.status := 200;
              Upstream.headers := [];
              Upstream.body :=
                Some {| chunks := [interleaved_chunk]; failure := None |} |}
           [interleaved_chunk]).
  - reflexivity.
  - reflexivity.
  - reflexivity.
  - split; vm_compute; reflexivity.
Defined.

(** *** Records *)

(** What both loops make of a string at [choices[0].delta.content]: the
    string is appended; the empty string is not truthy, and nothing is
    all there is to append. *)
Lemma string_content_appended (accumulated c : jsstring) :
  (if ToBoolean (Some (JString c)) then
     match ToString (JString c) with
     | Normal text => accumulated ++ text
     | Throw _ => accumulated
     end
   else accumulated) = accumulated ++ c.
Proof. destruct c; simpl; [now rewrite app_nil_r|reflexivity]. Qed.

Lemma carries_fragment (line c : jsstring) :
  carries line c -> line_fragment line = c.
Proof.
  intros [l data s Hstart Hparse Hdelta|l e Hparse|l Hstart].
  - unfold line_fragment.
    rewrite (process_data_line [] l data Hstart Hparse), Hdelta.
    apply (string_content_appended [] s).
  - exact (process_unparsed_line [] l e Hparse).
  - now apply line_fragment_not_data.
Qed.

Lemma carried_fragments (lines fragments : list jsstring) :
  Forall2 carries lines fragments ->
  List.concat (map line_fragment lines) = List.concat fragments.
Proof.
  induction 1 as [|l c ls cs Hl _ IH]; [reflexivity|].
  cbn [map List.concat]. now rewrite IH, (carries_fragment l c Hl).
Qed.

(** X17.  A stream of whole records is aggregated to the records'
    contents: when every line of every chunk either does not start with
    [data:], or has a payload that does not parse, or has a payload that
    parses to a value with a string at [choices[0].delta.content], the
    aggregated content is the concatenation of those strings in the
    order of the lines, whatever else the records hold; the other lines
    add nothing. *)
Theorem records_are_aggregated (chunks : list bytes)
    (contents : list (list jsstring)) :
  Forall2 (fun value fragments => Forall2 carries (lines_of value) fragments)
          chunks contents ->
  aggregate chunks = List.concat (List.concat contents).
Proof.
  induction 1 as [|value fragments rest more Hvalue _ IH]; [reflexivity|].
  rewrite aggregate_cons, IH, (carried_fragments _ _ Hvalue).
  cbn [List.concat]. now rewrite concat_app.
Qed.

Lemma records_are_aggregated_witness :
  aggregate [interleaved_chunk] =
  List.concat (List.concat [[lit "Hel"; []; lit "lo"; []]]).
Proof.
  apply (records_are_aggregated [interleaved_chunk]
           [[lit "Hel"; []; lit "lo"; []]]).
  constructor; [|constructor].
  change (lines_of interleaved_chunk)
    with [quoted record_Hel; lit "data: not-json"; quoted record_lo; []].
  constructor; [|constructor; [|constructor; [|constructor; [|constructor]]]].
  - apply (carries_content _ (JObject (delta_record (lit "Hel"))));
      vm_compute; reflexivity.
  - apply (carries_unparsed _ SyntaxError). vm_compute. reflexivity.
  - apply (carries_content _ (JObject (delta_record (lit "lo"))));
      vm_compute; reflexivity.
  - apply carries_no_data. reflexivity.
Defined.

(** X18.  The page reads a record line for what it carries: on [data: ]
    followed by a text that [JSON.parse] reads as a value with a string
    at [choices[0].delta.content], it appends that string to
    [accumulatedContent], puts the result in place of the last message
    and logs nothing. *)
Theorem page_record_line_adds_its_content
    (p : jsstring) (data : value) (c : jsstring) (loop : Page.Loop) :
  JSON.parse p = Normal data ->
  delta_content data = Normal (Some (JString c)) ->
  Page.process_line loop (lit "data: " ++ p) =
  {| Page.accumulatedContent := Page.accumulatedContent loop ++ c;
     Page.shown :=
       Page.replace_last (Page.shown loop)
         {| Page.role := Page.assistant;
            Page.content := Page.accumulatedContent loop ++ c |};
     Page.logged := Page.logged loop |}.
Proof.
  intros Hparse Hdelta. unfold Page.process_line.
  change (lit "data: " ++ p) with (100%N :: (lit "ata: " ++ p)) at 1.
  rewrite trim_not_empty by reflexivity.
  change (Str.startsWith (lit "data: ") (lit "data: " ++ p))
    with (Str.startsWith [] p).
  cbn [negb andb Str.startsWith].
  unfold Page.try_line, Str.slice.
  change (skipn 6 (lit "data: " ++ p)) with p.
  rewrite Hparse. cbn [and_then].
  unfold Page.token_of. rewrite Hdelta. cbn [and_then].
  destruct c as [|x c];
    cbn [ToBoolean List.length Nat.eqb negb ToString and_then];
    reflexivity.
Qed.

Lemma page_record_line_witness :
  Page.process_line
    {| Page.accumulatedContent := lit "Hel";
       Page.shown := [{| Page.role := Page.assistant;
                         Page.content := lit "Hel" |}];
       Page.logged := [] |}
    (lit "data: " ++
     quoted " { 'id' : 'c-1', 'choices' : [ { 'index' : 0, 'delta' : { 'content' : 'lo' } } ] } ") =
  {| Page.accumulatedContent := lit "Hello";
     Page.shown := [{| Page.role := Page.assistant;
                       Page.content := lit "Hello" |}];
     Page.logged := [] |}.
Proof.
  apply (page_record_line_adds_its_content
           (quoted " { 'id' : 'c-1', 'choices' : [ { 'index' : 0, 'delta' : { 'content' : 'lo' } } ] } ")
           (JObject
              [(lit "id", JString (lit "c-1"));
               (lit "choices",
                JArray [JObject [(lit "index", JNumber (Double.of_Z 0));
                                 (lit "delta",
                                  JObject [(lit "content",
                                            JString (lit "lo"))])]])])
           (lit "lo")
           {| Page.accumulatedContent := lit "Hel";
              Page.shown := [{| Page.role := Page.assistant;
                                Page.content := lit "Hel" |}];
              Page.logged := [] |}).
  - vm_compute. reflexivity.
  - reflexivity.
Defined.
